(** * playwright-mapper: a shallow embedding of [src/index.js] and [bin/cli.js]

    The development follows the two source files of the package.

    - [Js] holds the few ECMAScript library operations the program calls
      ([String.prototype.startsWith], [trim], [split], [Array.prototype.join],
      [includes], a [Set] with insertion order).
    - [Node] holds the interface to the outside world: the file system,
      the module loader, child processes, the console and [process.exit],
      as an oracle record plus a trace of the calls that were made.
    - [Index] embeds [src/index.js], [Cli] embeds [bin/cli.js].
    - [Filter] reads a filter expression back into tags, [View] gives the
      value-level views of the loops and of a trace used in the statements,
      [Sample] a few concrete worlds.
    - [Argv] embeds [loadConfig] and [parseArgs], [Main] the help text,
      [initCommand] and the command switch of [main]; [Shape] and
      [Scenario] hold the predicates and worlds their statements use.

    Strings are [string] values: sequences of code units, compared unit by
    unit, as [startsWith], [includes] and [split] do. *)

From Stdlib Require Import ZArith Ascii String List Bool Lia.
From stdpp Require Import base tactics option list strings gmap.


(* ===================================================================== *)
(** * ECMAScript library operations *)
(* ===================================================================== *)

Module Js.

(** [s.startsWith(search)]: the code units of [search] are the first
    code units of [s]. *)
Fixpoint startsWith (s search : string) {struct search} : bool :=
  match search with
  | EmptyString => true
  | String c search' =>
      match s with
      | EmptyString => false
      | String d s' => if decide (c = d) then startsWith s' search' else false
      end
  end.

(** [arr.includes(x)] on an array of strings. *)
Definition includes (arr : list string) (x : string) : bool :=
  bool_decide (x ∈ arr).

(** [arr.some(p)]. *)
Definition some {A} (p : A → bool) (arr : list A) : bool := existsb p arr.

(** [arr.join(sep)]. *)
Fixpoint join (sep : string) (arr : list string) : string :=
  match arr with
  | [] => ""
  | [x] => x
  | x :: rest => x +:+ sep +:+ join sep rest
  end.

(** [s.split(sep)] for a separator of one code unit; the empty string
    splits into one empty piece. *)
Fixpoint split (sep : ascii) (s : string) : list string :=
  match s with
  | EmptyString => [""]
  | String c s' =>
      if decide (c = sep) then "" :: split sep s'
      else match split sep s' with
           | piece :: pieces => String c piece :: pieces
           | [] => [String c ""]
           end
  end.

(** WhiteSpace and LineTerminator code units below 256: TAB, LF, VT, FF,
    CR, SP and NBSP. *)
Definition isWhiteSpace (c : ascii) : bool :=
  let n := nat_of_ascii c in
  bool_decide (n = 9 ∨ n = 10 ∨ n = 11 ∨ n = 12 ∨ n = 13 ∨ n = 32 ∨ n = 160)%nat.

Fixpoint trimStart (s : string) : string :=
  match s with
  | EmptyString => ""
  | String c s' => if isWhiteSpace c then trimStart s' else s
  end.

Fixpoint trimEnd (s : string) : string :=
  match s with
  | EmptyString => ""
  | String c s' =>
      match trimEnd s' with
      | EmptyString => if isWhiteSpace c then "" else String c ""
      | t => String c t
      end
  end.

(** [s.trim()]. *)
Definition trim (s : string) : string := trimEnd (trimStart s).

(** Truthiness of a string: only the empty string is falsy. *)
Definition truthy (s : string) : bool :=
  match s with EmptyString => false | _ => true end.

(** [a || b] on strings. *)
Definition or_else (a b : string) : string := if truthy a then a else b.

(** A [Set] of strings keeps its elements in insertion order;
    [add] of a present element changes nothing. *)
Definition JsSet := list string.
Definition Set_new : JsSet := [].
Definition Set_add (x : string) (s : JsSet) : JsSet :=
  if bool_decide (x ∈ s) then s else s ++ [x].
Definition Array_from (s : JsSet) : list string := s.

(** The double quote, line feed and boolean-to-string conversion used in
    template literals. *)
Definition dquote : string := String (ascii_of_nat 34) "".
Definition LF : ascii := ascii_of_nat 10.
Definition string_of_bool (b : bool) : string := if b then "true" else "false".

End Js.

(* ===================================================================== *)
(** * The Node.js environment *)
(* ===================================================================== *)

Module Node.

(** A thrown [Error]: its message, and the [status] property that
    [execSync] attaches ([None] when that property is [null] or absent). *)
Record JsError := { message : string; status : option Z }.

(** [new Error(msg)]. *)
Definition Error (msg : string) : JsError := {| message := msg; status := None |}.

(** A mapping table, as [Object.entries] enumerates it: tag, prefixes. *)
Definition Table := list (string * list string).

(** What [require] returns for a mappings module: the table of the
    exports object itself and, when it has one, the table under its
    [default] property. *)
Record Exports := { default_export : option Table; own_table : Table }.

(** The outside world, as the program can question it. *)
Record World := {
  cwd : string;
  path_resolve : string → string → string;
  existsSync : string → bool;
  require : string → JsError + Exports;
  execSync : string → JsError + string;
  env_MAPPER_DISABLE : option string;
}.

(** Observable actions, in the order they happen. *)
Inductive event :=
| console_log (line : string)
| console_warn (line : string)
| console_error (line : string)
| fs_existsSync (path : string)
| module_require (path : string)
| child_execSync (command : string).

(** How a computation ends: with a value, with a thrown error, or with
    [process.exit(code)], which no [catch] intercepts. *)
Inductive outcome (A : Type) :=
| Ret (a : A)
| Throw (e : JsError)
| Exit (code : Z).
Global Arguments Ret {A} a.
Global Arguments Throw {A} e.
Global Arguments Exit {A} code.

Definition M (A : Type) : Type := list event * outcome A.

Definition ret {A} (a : A) : M A := ([], Ret a).
Definition throw {A} (e : JsError) : M A := ([], Throw e).
Definition process_exit {A} (code : Z) : M A := ([], Exit code).
Definition emit (e : event) : M unit := ([e], Ret tt).

Definition bind {A B} (m : M A) (f : A → M B) : M B :=
  match m with
  | (t, Ret a) => let '(t', o) := f a in (t ++ t', o)
  | (t, Throw e) => (t, Throw e)
  | (t, Exit c) => (t, Exit c)
  end.

(** [try { body } catch (error) { handler }]. *)
Definition try_catch {A} (body : M A) (handler : JsError → M A) : M A :=
  match body with
  | (t, Throw e) => let '(t', o) := handler e in (t ++ t', o)
  | other => other
  end.

Definition trace {A} (m : M A) : list event := fst m.
Definition result {A} (m : M A) : outcome A := snd m.

Declare Scope js_scope.
Delimit Scope js_scope with js.
Notation "x <- m ; k" := (bind m (fun x => k))
  (at level 20, m at level 100, k at level 200, only parsing) : js_scope.
Notation "m ;; k" := (bind m (fun _ => k))
  (at level 100, k at level 200, right associativity, only parsing) : js_scope.

Local Open Scope js_scope.

Definition when (b : bool) (m : M unit) : M unit := if b then m else ret tt.

(** [arr.forEach(f)]. *)
Fixpoint forEach {A} (f : A → M unit) (arr : list A) : M unit :=
  match arr with
  | [] => ret tt
  | x :: rest => f x ;; forEach f rest
  end.

(** A loop whose body updates a captured variable of type [S]. *)
Fixpoint foldM {S A} (f : S → A → M S) (s : S) (arr : list A) : M S :=
  match arr with
  | [] => ret s
  | x :: rest => s' <- f s x ; foldM f s' rest
  end.

(** [console.log(a, b, ...)] prints its arguments separated by a space. *)
Module console.
Definition log (args : list string) : M unit := emit (console_log (Js.join " " args)).
Definition warn (args : list string) : M unit := emit (console_warn (Js.join " " args)).
Definition error (args : list string) : M unit := emit (console_error (Js.join " " args)).
End console.

Section Calls.
Context (W : World).

Definition call_existsSync (path : string) : M bool :=
  emit (fs_existsSync path) ;; ret (existsSync W path).

(** [delete require.cache[require.resolve(path)]; require(path)]. *)
Definition call_require (path : string) : M Exports :=
  emit (module_require path) ;;
  match require W path with
  | inl e => throw e
  | inr m => ret m
  end.

Definition call_execSync (command : string) : M string :=
  emit (child_execSync command) ;;
  match execSync W command with
  | inl e => throw e
  | inr out => ret out
  end.
End Calls.

(** Arrays as objects: a store of array contents by reference. *)
Definition loc := positive.
Abbreviation store := (gmap loc (list string)).

(** [[...arr]] and array literals allocate a new array. *)
Definition alloc (v : list string) (σ : store) : loc * store :=
  let l := fresh (dom σ) in (l, <[l := v]> σ).

(** [arr.push(x)]. *)
Definition push (l : loc) (x : string) (σ : store) : option store :=
  match σ !! l with
  | Some v => Some (<[l := v ++ [x]]> σ)
  | None => None
  end.

End Node.

(* ===================================================================== *)
(** * src/index.js *)
(* ===================================================================== *)

Module Index.
Import Node.
Local Open Scope js_scope.

(** The [options] argument of [computeGrepPattern]: an object whose
    [addBaseline] property may be absent. *)
Record Options := { addBaseline : option bool }.

Definition BASELINE : string := "@baseline".

(** [mappingsOrFile]: a path (a string) or a mappings object. *)
Definition MappingsOrFile : Type := string + Table.

Section WithWorld.
Context (W : World).

Definition branch_command : string := "git rev-parse --abbrev-ref HEAD".

(** [`git diff --name-only ${baseBranch}...HEAD`]. *)
Definition diff_command (baseBranch : string) : string :=
  "git diff --name-only " +:+ baseBranch +:+ "...HEAD".

(** [getChangedFiles(baseBranch = 'main', verbose = false)]. *)
Definition getChangedFiles (baseBranch : option string) (verbose : option bool)
  : M (list string) :=
  let baseBranch := default "main" baseBranch in
  let verbose := default false verbose in
  try_catch
    (out <- call_execSync W branch_command ;
     let currentBranch := Js.trim out in
     when verbose
       (console.log ["[mapper] Current branch: " +:+ currentBranch] ;;
        console.log ["[mapper] Base branch: " +:+ baseBranch]) ;;
     let diffCommand := diff_command baseBranch in
     out <- call_execSync W diffCommand ;
     let output := Js.trim out in
     if negb (Js.truthy output) then
       when verbose (console.log ["[mapper] No changed files detected"]) ;;
       ret []
     else
       let files := filter (λ file, Is_true (Js.truthy file)) (Js.split Js.LF output) in
       when verbose
         (console.log ["[mapper] Changed files:"] ;;
          forEach (λ file, console.log [" - " +:+ file]) files) ;;
       ret files)
    (λ error,
       when verbose
         (console.warn ["[mapper] Error detecting changed files:"; message error]) ;;
       ret []).

Definition loadMappings (mappingsFile : string) : M Table :=
  let resolvedPath := path_resolve W (cwd W) mappingsFile in
  present <- call_existsSync W resolvedPath ;
  if negb present then
    throw (Error ("Mappings file not found: " +:+ resolvedPath))
  else
    mappings <- call_require W resolvedPath ;
    ret (match default_export mappings with
         | Some table => table
         | None => own_table mappings
         end).

(** [getMappedTags(changedFiles, mappingsOrFile, verbose = false)]; the
    [Set] named [tags] is threaded through both loops. *)
Definition getMappedTags (changedFiles : list string)
    (mappingsOrFile : MappingsOrFile) (verbose : option bool)
  : M (list string) :=
  let verbose := default false verbose in
  mappings <- match mappingsOrFile with
              | inl file => loadMappings file
              | inr table => ret table
              end ;
  tags <- foldM (λ tags file,
            foldM (λ tags '(tag, paths),
              if Js.some (λ path, Js.startsWith file path) paths then
                let tags := Js.Set_add tag tags in
                when verbose (console.log ["[mapper] " +:+ file +:+ " → " +:+ tag]) ;;
                ret tags
              else ret tags)
              tags mappings)
            Js.Set_new changedFiles ;
  ret (Js.Array_from tags).

(** [error.status || 1]: zero, [null] and [undefined] are falsy. *)
Definition status_or_1 (e : JsError) : Z :=
  match status e with
  | Some n => if decide (n = 0%Z) then 1%Z else n
  | None => 1%Z
  end.

(** The command line built in [runPlaywright]:
    [['npx', 'playwright', 'test', '-g', `"${grepPattern}"`,
      ...additionalArgs].join(' ')]. *)
Definition playwright_command (grepPattern : string) (additionalArgs : list string)
  : string :=
  Js.join " "
    (["npx"; "playwright"; "test"; "-g"; Js.dquote +:+ grepPattern +:+ Js.dquote]
       ++ additionalArgs).

(** [runPlaywright(grepPattern, additionalArgs = [])]. *)
Definition runPlaywright (grepPattern : string) (additionalArgs : option (list string))
  : M Z :=
  let additionalArgs := default [] additionalArgs in
  let args := playwright_command grepPattern additionalArgs in
  try_catch
    (call_execSync W args ;; ret 0%Z)
    (λ error, ret (status_or_1 error)).

End WithWorld.

(** [const { addBaseline = true } = options] with [options = {}] when the
    argument is omitted. *)
Definition addBaseline_of (options : option Options) : bool :=
  match options with
  | None => true
  | Some o => default true (addBaseline o)
  end.

(** [computeGrepPattern(tags, options = {})] on array references:
    [[...tags]] allocates [allTags], [push] updates that new array. *)
Definition computeGrepPattern_ref (tags : loc) (options : option Options) (σ : store)
  : option (string * store) :=
  let addBaseline := addBaseline_of options in
  match σ !! tags with
  | None => None
  | Some elements =>
      let '(allTags, σ) := alloc elements σ in
      match σ !! allTags with
      | None => None
      | Some content =>
          match (if addBaseline && negb (Js.includes content BASELINE)
                 then push allTags BASELINE σ else Some σ) with
          | None => None
          | Some σ =>
              match σ !! allTags with
              | None => None
              | Some content =>
                  if decide (length content = 0)
                  then Some (BASELINE, σ)
                  else Some ("(" +:+ Js.join "|" content +:+ ")", σ)
              end
          end
      end
  end.

(** The content of [allTags] once the baseline step has run. *)
Definition allTags (tags : list string) (options : option Options) : list string :=
  if addBaseline_of options && negb (Js.includes tags BASELINE)
  then tags ++ [BASELINE]
  else tags.

(** [computeGrepPattern] on array contents, for callers that only look
    at the returned string. *)
Definition computeGrepPattern (tags : list string) (options : option Options) : string :=
  let allTags := allTags tags options in
  if decide (length allTags = 0)
  then BASELINE
  else "(" +:+ Js.join "|" allTags +:+ ")".

End Index.

(* ===================================================================== *)
(** * Reading a filter expression *)
(* ===================================================================== *)

(** The tag list of a filter expression, read off its text: the body of the
    parenthesised group (or the whole expression when it is not a group),
    cut at each ["|"]. The program itself never parses an expression; this
    reading serves to state what re-composing an expression yields. *)
Module Filter.

(** [Some body] when [s] is [body] followed by a closing parenthesis. *)
Fixpoint without_closing (s : string) : option string :=
  match s with
  | EmptyString => None
  | String c EmptyString => if decide (c = ")"%char) then Some "" else None
  | String c s' => String c <$> without_closing s'
  end.

Definition group_body (pattern : string) : string :=
  match pattern with
  | EmptyString => pattern
  | String c rest =>
      if decide (c = "("%char) then
        match without_closing rest with
        | Some body => body
        | None => pattern
        end
      else pattern
  end.

Definition patternTags (pattern : string) : list string :=
  Js.split "|"%char (group_body pattern).

End Filter.

(* ===================================================================== *)
(** * bin/cli.js *)
(* ===================================================================== *)

Module Cli.
Import Node.
Local Open Scope js_scope.

Record Config := {
  mappingsFile : string;
  baseBranch : string;
  addBaseline : bool;
  verbose : bool;
}.

Definition DEFAULT_CONFIG : Config :=
  {| mappingsFile := "test-mappings.js"; baseBranch := "main";
     addBaseline := true; verbose := false |}.

Definition NL : string := String Js.LF "".

Section WithWorld.
Context (W : World).

Definition print_configuration (config : Config) : M unit :=
  console.log [NL +:+ "[mapper] Configuration:"] ;;
  console.log ["  Base branch: " +:+ baseBranch config] ;;
  console.log ["  Mappings file: " +:+ mappingsFile config] ;;
  console.log ["  Add baseline: " +:+ Js.string_of_bool (addBaseline config)].

Definition composer_options (config : Config) : option Index.Options :=
  Some {| Index.addBaseline := Some (addBaseline config) |}.

Definition listCommand (config : Config) : M unit :=
  print_configuration config ;;
  changedFiles <- Index.getChangedFiles W (Some (baseBranch config)) (Some true) ;
  if decide (length changedFiles = 0) then
    console.log [NL +:+ "[mapper] No changed files detected"] ;;
    console.log ["[mapper] Would run: @baseline only"]
  else
    console.log [] ;;
    try_catch
      (mappings <- Index.loadMappings W (mappingsFile config) ;
       tags <- Index.getMappedTags W changedFiles (inr mappings) (Some true) ;
       let grepPattern := Index.computeGrepPattern tags (composer_options config) in
       console.log [NL +:+ "[mapper] Mapped test tags: " +:+ Js.or_else (Js.join ", " tags) "none"] ;;
       console.log ["[mapper] Grep pattern: " +:+ grepPattern] ;;
       console.log ["[mapper] Would run: npx playwright test -g "
              +:+ Js.dquote +:+ grepPattern +:+ Js.dquote])
      (λ error,
         console.error ["[mapper] Error:"; message error] ;;
         process_exit 1%Z).

Definition runCommand (config : Config) (playwrightArgs : list string) : M Z :=
  if decide (env_MAPPER_DISABLE W = Some "1") then
    console.log ["[mapper] MAPPER_DISABLE=1, running all tests"] ;;
    Index.runPlaywright W ".*" (Some playwrightArgs)
  else
    when (verbose config) (print_configuration config ;; console.log []) ;;
    changedFiles <- Index.getChangedFiles W (Some (baseBranch config)) (Some (verbose config)) ;
    if decide (length changedFiles = 0) then
      when (verbose config)
        (console.log ["[mapper] No changes detected, running @baseline tests only"]) ;;
      Index.runPlaywright W "@baseline" (Some playwrightArgs)
    else
      try_catch
        (mappings <- Index.loadMappings W (mappingsFile config) ;
         tags <- Index.getMappedTags W changedFiles (inr mappings) (Some (verbose config)) ;
         let grepPattern := Index.computeGrepPattern tags (composer_options config) in
         when (verbose config)
           (console.log [NL +:+ "[mapper] Mapped test tags: "
                   +:+ Js.or_else (Js.join ", " tags) "none"] ;;
            console.log ["[mapper] Running: npx playwright test -g "
                   +:+ Js.dquote +:+ grepPattern +:+ Js.dquote] ;;
            console.log []) ;;
         Index.runPlaywright W grepPattern (Some playwrightArgs))
        (λ error,
           console.error ["[mapper] Error:"; message error] ;;
           console.error ["[mapper] Falling back to running all tests"] ;;
           Index.runPlaywright W ".*" (Some playwrightArgs)).

End WithWorld.

End Cli.

(* ===================================================================== *)
(** * Views of a run *)
(* ===================================================================== *)

Module View.
Import Node.

(** One iteration of the inner loop of [getMappedTags] on the [Set]. *)
Definition rule_step (file : string) (tags : Js.JsSet) (rule : string * list string)
  : Js.JsSet :=
  let '(tag, paths) := rule in
  if Js.some (λ path, Js.startsWith file path) paths then Js.Set_add tag tags else tags.

(** One iteration of the outer loop. *)
Definition file_step (mappings : Table) (tags : Js.JsSet) (file : string) : Js.JsSet :=
  foldl (rule_step file) tags mappings.

(** The [Set] after both loops, without the diagnostics. *)
Definition mappedTags (changedFiles : list string) (mappings : Table) : list string :=
  Js.Array_from (foldl (file_step mappings) Js.Set_new changedFiles).

(** The lines [getChangedFiles] keeps from the output of the diff. *)
Definition files_of_output (out : string) : list string :=
  filter (λ file, Is_true (Js.truthy file)) (Js.split Js.LF (Js.trim out)).

(** The value of [getChangedFiles], read from the two git commands. *)
Definition detected (W : World) (baseBranch : string) : list string :=
  match execSync W Index.branch_command, execSync W (Index.diff_command baseBranch) with
  | inr _, inr out => files_of_output out
  | _, _ => []
  end.

(** The test-runner command lines among the child processes of a trace. *)
Definition runner_calls (t : list event) : list string :=
  omap (λ e, match e with
             | child_execSync command =>
                 if Js.startsWith command "npx playwright test"
                 then Some command else None
             | _ => None
             end) t.

(** The paths looked up on disk or loaded as a module in a trace: the
    only two ways [loadMappings] reaches the mapping source. *)
Definition mapping_accesses (t : list event) : list string :=
  omap (λ e, match e with
             | fs_existsSync path | module_require path => Some path
             | _ => None
             end) t.

(** A trace with no runner call and no access to a mapping source. *)
Definition quiet (t : list event) : Prop :=
  runner_calls t = [] ∧ mapping_accesses t = [].

End View.

(* ===================================================================== *)
(** * Sample worlds *)
(* ===================================================================== *)

Module Sample.
Import Node.

(** A repository on a feature branch whose diff prints [diff_output];
    every other command, the test runner included, exits with status 2. *)
Definition git (diff_output : string) (command : string) : JsError + string :=
  if Js.startsWith command "git rev-parse" then inr ("feature" +:+ Cli.NL)
  else if Js.startsWith command "git diff" then inr diff_output
  else inl {| message := "Command failed: " +:+ command; status := Some 2%Z |}.

(** No mappings file on disk. *)
Definition bare (diff_output : string) : World :=
  {| cwd := "/repo";
     path_resolve := λ dir file, dir +:+ "/" +:+ file;
     existsSync := λ _, false;
     require := λ path, inl (Error ("Cannot find module " +:+ path));
     execSync := git diff_output;
     env_MAPPER_DISABLE := None |}.

Definition changed : World := bare ("src/auth/login.ts" +:+ Cli.NL).
Definition unchanged : World := bare "".

(** A runner killed by a signal: the failure carries no status. *)
Definition killed : World :=
  {| cwd := "/repo";
     path_resolve := λ dir file, dir +:+ "/" +:+ file;
     existsSync := λ _, false;
     require := λ path, inl (Error ("Cannot find module " +:+ path));
     execSync := λ command, inl {| message := "Command failed: " +:+ command;
                                   status := None |};
     env_MAPPER_DISABLE := None |}.

Definition table : Table :=
  [("@auth", ["src/auth/"]); ("@api", ["src/api/"]); ("@ui", ["src/components/"])].

End Sample.

(* ===================================================================== *)
(** * bin/cli.js: configuration file and command line *)
(* ===================================================================== *)

Module Argv.
Import Node.
Local Open Scope js_scope.

(** The recognised keys of the object parsed from [.mapperrc]; a key the
    file does not have is [None]. *)
Record ConfigFile := {
  file_mappingsFile : option string;
  file_baseBranch : option string;
  file_addBaseline : option bool;
  file_verbose : option bool;
}.

(** [{ ...DEFAULT_CONFIG, ...config }]. *)
Definition spread (base : Cli.Config) (config : ConfigFile) : Cli.Config :=
  {| Cli.mappingsFile := default (Cli.mappingsFile base) (file_mappingsFile config);
     Cli.baseBranch := default (Cli.baseBranch base) (file_baseBranch config);
     Cli.addBaseline := default (Cli.addBaseline base) (file_addBaseline config);
     Cli.verbose := default (Cli.verbose base) (file_verbose config) |}.

(** [parsed.config] while the arguments are read: a value taken from
    [args[++i]] past the end of the array is [undefined], here [None]. *)
Record Settings := {
  mappingsFile : option string;
  baseBranch : option string;
  addBaseline : bool;
  verbose : bool;
}.

Definition of_config (config : Cli.Config) : Settings :=
  {| mappingsFile := Some (Cli.mappingsFile config);
     baseBranch := Some (Cli.baseBranch config);
     addBaseline := Cli.addBaseline config;
     verbose := Cli.verbose config |}.

Record Parsed := {
  command : string;
  config : Settings;
  playwrightArgs : list string;
}.

(** The [for] loop of [parseArgs] from index [i] on: [first] says whether
    [i === 0], and [args] holds [args[i]], [args[i+1]], ... *)
Fixpoint parse_loop (first : bool) (args : list string) (parsed : Parsed) : Parsed :=
  match args with
  | [] => parsed
  | arg :: rest =>
      let cfg := config parsed in
      if negb (Js.startsWith arg "-") && first then
        parse_loop false rest
          {| command := arg; config := cfg; playwrightArgs := playwrightArgs parsed |}
      else if bool_decide (arg = "--base-branch" ∨ arg = "-b") then
        match rest with
        | value :: rest' =>
            parse_loop false rest'
              {| command := command parsed;
                 config := {| mappingsFile := mappingsFile cfg; baseBranch := Some value;
                              addBaseline := addBaseline cfg; verbose := verbose cfg |};
                 playwrightArgs := playwrightArgs parsed |}
        | [] =>
            {| command := command parsed;
               config := {| mappingsFile := mappingsFile cfg; baseBranch := None;
                            addBaseline := addBaseline cfg; verbose := verbose cfg |};
               playwrightArgs := playwrightArgs parsed |}
        end
      else if bool_decide (arg = "--mappings-file" ∨ arg = "-m") then
        match rest with
        | value :: rest' =>
            parse_loop false rest'
              {| command := command parsed;
                 config := {| mappingsFile := Some value; baseBranch := baseBranch cfg;
                              addBaseline := addBaseline cfg; verbose := verbose cfg |};
                 playwrightArgs := playwrightArgs parsed |}
        | [] =>
            {| command := command parsed;
               config := {| mappingsFile := None; baseBranch := baseBranch cfg;
                            addBaseline := addBaseline cfg; verbose := verbose cfg |};
               playwrightArgs := playwrightArgs parsed |}
        end
      else if bool_decide (arg = "--verbose" ∨ arg = "-v") then
        parse_loop false rest
          {| command := command parsed;
             config := {| mappingsFile := mappingsFile cfg; baseBranch := baseBranch cfg;
                          addBaseline := addBaseline cfg; verbose := true |};
             playwrightArgs := playwrightArgs parsed |}
      else if bool_decide (arg = "--no-baseline") then
        parse_loop false rest
          {| command := command parsed;
             config := {| mappingsFile := mappingsFile cfg; baseBranch := baseBranch cfg;
                          addBaseline := false; verbose := verbose cfg |};
             playwrightArgs := playwrightArgs parsed |}
      else if bool_decide (arg = "--help" ∨ arg = "-h") then
        parse_loop false rest
          {| command := "help"; config := cfg; playwrightArgs := playwrightArgs parsed |}
      else
        parse_loop false rest
          {| command := command parsed; config := cfg;
             playwrightArgs := playwrightArgs parsed ++ [arg] |}
  end.

Section WithWorld.
Context (W : World).

(** [JSON.parse(fs.readFileSync(configPath, 'utf-8'))]: the parsed content,
    or the error thrown by the read or by the parser. *)
Context (readJSON : string → JsError + ConfigFile).

Definition loadConfig : M Cli.Config :=
  let configPath := path_resolve W (cwd W) ".mapperrc" in
  present <- call_existsSync W configPath ;
  if present then
    try_catch
      (config <- match readJSON configPath with
                 | inl e => throw e
                 | inr parsed => ret parsed
                 end ;
       ret (spread Cli.DEFAULT_CONFIG config))
      (λ error,
         console.warn ["[mapper] Error loading .mapperrc, using defaults"] ;;
         ret Cli.DEFAULT_CONFIG)
  else ret Cli.DEFAULT_CONFIG.

Definition parseArgs (args : list string) : M Parsed :=
  loaded <- loadConfig ;
  ret (parse_loop true args
         {| command := "run"; config := of_config loaded; playwrightArgs := [] |}).

End WithWorld.

End Argv.

(* ===================================================================== *)
(** * bin/cli.js: help, init and the command switch *)
(* ===================================================================== *)

Module Main.
Import Node.
Local Open Scope js_scope.

(** The template literal printed by [printHelp], line by line. *)
Definition HELP : string :=
  Js.join Cli.NL
  ["";
   "🎯 playwright-mapper - Run only the Playwright tests that matter";
   "";
   "Usage:";
   "  npx playwright-mapper [command] [options]";
   "";
   "Commands:";
   "  run             Run Playwright tests with mapped tags (default)";
   "  list            Show changed files and mapped tags without running tests";
   "  init            Create sample test-mappings.js and .mapperrc.json files";
   "  help            Show this help message";
   "";
   "Options:";
   "  -b, --base-branch <branch>    Branch to diff against (default: main)";
   "  -m, --mappings-file <file>    Path to mappings file (default: test-mappings.js)";
   "  -v, --verbose                 Print detailed debug info";
   "  --no-baseline                 Don't include @baseline in grep pattern";
   "";
   "Examples:";
   "  npx playwright-mapper";
   "  npx playwright-mapper list";
   "  npx playwright-mapper --base-branch develop";
   "  npx playwright-mapper --verbose";
   "  npx playwright-mapper -- --headed --project=chromium";
   "";
   "Environment Variables:";
   "  MAPPER_DISABLE=1              Bypass mapper and run all tests";
   ""].

Definition printHelp : M unit := console.log [HELP].

(** The template literal [sampleMappings], line by line. *)
Definition sampleMappings : string :=
  Js.join Cli.NL
  ["// Test tag to file path mappings";
   "module.exports = {";
   ("  " +:+ Js.dquote +:+ "@auth" +:+ Js.dquote +:+ ": [");
   ("    " +:+ Js.dquote +:+ "src/auth/" +:+ Js.dquote +:+ ",");
   ("    " +:+ Js.dquote +:+ "src/middleware/auth.js" +:+ Js.dquote);
   "  ],";
   ("  " +:+ Js.dquote +:+ "@api" +:+ Js.dquote +:+ ": [");
   ("    " +:+ Js.dquote +:+ "src/api/" +:+ Js.dquote +:+ ",");
   ("    " +:+ Js.dquote +:+ "src/services/" +:+ Js.dquote);
   "  ],";
   ("  " +:+ Js.dquote +:+ "@ui" +:+ Js.dquote +:+ ": [");
   ("    " +:+ Js.dquote +:+ "src/components/" +:+ Js.dquote +:+ ",");
   ("    " +:+ Js.dquote +:+ "src/pages/" +:+ Js.dquote);
   "  ],";
   "};";
   ""].

(** [JSON.stringify(sampleConfig, null, 2)]. *)
Definition sampleConfig : string :=
  Js.join Cli.NL
  ["{";
   ("  " +:+ Js.dquote +:+ "mappingsFile" +:+ Js.dquote +:+ ": " +:+ Js.dquote +:+ "test-mappings.js" +:+ Js.dquote +:+ ",");
   ("  " +:+ Js.dquote +:+ "baseBranch" +:+ Js.dquote +:+ ": " +:+ Js.dquote +:+ "main" +:+ Js.dquote +:+ ",");
   ("  " +:+ Js.dquote +:+ "addBaseline" +:+ Js.dquote +:+ ": true,");
   ("  " +:+ Js.dquote +:+ "verbose" +:+ Js.dquote +:+ ": false");
   "}"].

(** The files of the working directory: content by path. *)
Abbreviation Files := (gmap string string).

(** [initCommand()] on the files it reads and writes: [fs.existsSync] looks
    the path up, [fs.writeFileSync] stores the content. The result is the
    console output and the files afterwards. *)
Definition initCommand (W : World) (files : Files) : list event * Files :=
  let mappingsPath := path_resolve W (cwd W) "test-mappings.js" in
  let configPath := path_resolve W (cwd W) ".mapperrc" in
  let '(out1, files) :=
    if negb (bool_decide (is_Some (files !! mappingsPath))) then
      ([console_log "✅ Created test-mappings.js"], <[mappingsPath := sampleMappings]> files)
    else
      ([console_log "⚠️  test-mappings.js already exists, skipping"], files) in
  let '(out2, files) :=
    if negb (bool_decide (is_Some (files !! configPath))) then
      ([console_log "✅ Created .mapperrc"], <[configPath := sampleConfig]> files)
    else
      ([console_log "⚠️  .mapperrc already exists, skipping"], files) in
  (out1 ++ out2 ++ [console_log (Cli.NL +:+ "🎉 Setup complete! Edit test-mappings.js to define your tag→path mappings.")], files).

Section WithWorld.
Context (W : World).

(** What [initCommand()] does as a step of the command switch. *)
Context (init : M unit).

(** The [switch (command)] of [main]. *)
Definition switch (command : string) (config : Cli.Config) (playwrightArgs : list string)
  : M unit :=
  if bool_decide (command = "help") then
    printHelp ;; process_exit 0%Z
  else if bool_decide (command = "init") then
    init ;; process_exit 0%Z
  else if bool_decide (command = "list") then
    Cli.listCommand W config ;; process_exit 0%Z
  else
    exitCode <- Cli.runCommand W config playwrightArgs ;
    process_exit exitCode.

End WithWorld.

End Main.

(* ===================================================================== *)
(** * Shapes of names, matches and arguments *)
(* ===================================================================== *)

Module Shape.
Import Node.

(** The code unit [c] does not occur in [s]. *)
Fixpoint avoids (c : ascii) (s : string) : bool :=
  match s with
  | EmptyString => true
  | String d s' => negb (bool_decide (d = c)) && avoids c s'
  end.

(** [s] is not empty and its first code unit is not white space. *)
Definition starts_clean (s : string) : bool :=
  match s with
  | EmptyString => false
  | String c _ => negb (Js.isWhiteSpace c)
  end.

(** [s] is not empty and its last code unit is not white space. *)
Fixpoint ends_clean (s : string) : bool :=
  match s with
  | EmptyString => false
  | String c EmptyString => negb (Js.isWhiteSpace c)
  | String _ s' => ends_clean s'
  end.

(** A file name as [git diff --name-only] prints one on a line. *)
Definition tidy (name : string) : bool :=
  avoids Js.LF name && starts_clean name && ends_clean name.

(** The (file, tag) pairs that match, in the order the two loops of
    [getMappedTags] meet them. *)
Definition matches (changedFiles : list string) (mappings : Table)
  : list (string * string) :=
  file ← changedFiles;
  rule ← mappings;
  if Js.some (λ path, Js.startsWith file path) rule.2 then [(file, rule.1)] else [].

(** The options [parseArgs] recognises. *)
Definition recognised (arg : string) : bool :=
  bool_decide (arg ∈ ["--base-branch"; "-b"; "--mappings-file"; "-m";
                      "--verbose"; "-v"; "--no-baseline"; "--help"; "-h"]).

(** The options [parseArgs] reads a value after. *)
Definition takes_value (arg : string) : bool :=
  bool_decide (arg ∈ ["--base-branch"; "-b"; "--mappings-file"; "-m"]).

End Shape.

(* ===================================================================== *)
(** * More sample worlds *)
(* ===================================================================== *)

Module Scenario.
Import Node.

(** A repository with two changed files and a mappings module that exports
    [Sample.table]; the runner exits with status 2. *)
Definition mapped : World :=
  {| cwd := "/repo";
     path_resolve := λ dir file, dir +:+ "/" +:+ file;
     existsSync := λ path, bool_decide (path = "/repo/test-mappings.js");
     require := λ path, inr {| default_export := None; own_table := Sample.table |};
     execSync := Sample.git ("src/auth/login.ts" +:+ Cli.NL +:+ "src/api/users.ts" +:+ Cli.NL);
     env_MAPPER_DISABLE := None |}.

(** The same repository with a mappings module that fails to load. *)
Definition broken : World :=
  {| cwd := "/repo";
     path_resolve := λ dir file, dir +:+ "/" +:+ file;
     existsSync := λ path, bool_decide (path = "/repo/test-mappings.js");
     require := λ path, inl (Error "Unexpected token");
     execSync := Sample.git ("src/auth/login.ts" +:+ Cli.NL);
     env_MAPPER_DISABLE := None |}.

(** The mapper switched off by the environment. *)
Definition disabled : World :=
  {| cwd := "/repo";
     path_resolve := λ dir file, dir +:+ "/" +:+ file;
     existsSync := λ _, true;
     require := λ path, inr {| default_export := None; own_table := Sample.table |};
     execSync := Sample.git "";
     env_MAPPER_DISABLE := Some "1" |}.

(** A [.mapperrc] that sets the base branch and the verbosity. *)
Definition rc : Argv.ConfigFile :=
  {| Argv.file_mappingsFile := None; Argv.file_baseBranch := Some "develop";
     Argv.file_addBaseline := None; Argv.file_verbose := Some true |}.

Definition start : Argv.Parsed :=
  {| Argv.command := "run"; Argv.config := Argv.of_config Cli.DEFAULT_CONFIG;
     Argv.playwrightArgs := [] |}.

End Scenario.

(* ===================================================================== *)
(** * Properties of the library operations *)
(* ===================================================================== *)

#[local] Arguments String.append !_ _ : simpl nomatch.

Section JsFacts.

Lemma startsWith_spec (s search : string) :
  Js.startsWith s search = true ↔ ∃ rest, s = search +:+ rest.
Proof.
  revert s. induction search as [|c search IH]; intros s; simpl.
  - split; [intros _; by exists s | done].
  - destruct s as [|d s].
    + split; [done | intros [rest Hrest]; discriminate].
    + destruct (decide (c = d)) as [->|Hne].
      * rewrite IH. split; intros [rest Hrest]; exists rest.
        -- simpl. by rewrite Hrest.
        -- simpl in Hrest. by injection Hrest.
      * split; [done | intros [rest Hrest]; simpl in Hrest; by injection Hrest].
Qed.

Lemma includes_true (arr : list string) (x : string) :
  Js.includes arr x = true ↔ x ∈ arr.
Proof. unfold Js.includes. apply bool_decide_eq_true. Qed.

Lemma includes_false (arr : list string) (x : string) :
  Js.includes arr x = false ↔ x ∉ arr.
Proof. unfold Js.includes. apply bool_decide_eq_false. Qed.

Lemma some_true {A} (p : A → bool) (arr : list A) :
  Js.some p arr = true ↔ ∃ x, x ∈ arr ∧ p x = true.
Proof.
  unfold Js.some. rewrite existsb_exists.
  split; intros (x & Hx & Hp); exists x; split; auto; by apply list_elem_of_In.
Qed.

Lemma Set_add_elem (x y : string) (s : Js.JsSet) :
  y ∈ Js.Set_add x s ↔ y = x ∨ y ∈ s.
Proof.
  unfold Js.Set_add. case_bool_decide as Hin.
  - split; [by right | by intros [->|]].
  - rewrite elem_of_app, list_elem_of_singleton. tauto.
Qed.

Lemma Set_add_NoDup (x : string) (s : Js.JsSet) :
  NoDup s → NoDup (Js.Set_add x s).
Proof.
  intros Hs. unfold Js.Set_add. case_bool_decide as Hin; [done|].
  apply NoDup_app. split_and!; [done | | apply NoDup_singleton].
  intros y Hy Hy'. apply list_elem_of_singleton in Hy'. by subst.
Qed.

End JsFacts.

(* ===================================================================== *)
(** * Properties of the effect model *)
(* ===================================================================== *)

Section NodeFacts.
Import Node.

Lemma result_bind {A B} (m : M A) (k : A → M B) :
  result (bind m k) =
    match result m with
    | Ret a => result (k a)
    | Throw e => Throw e
    | Exit c => Exit c
    end.
Proof. destruct m as [t [a|e|c]]; simpl; [destruct (k a)|..]; done. Qed.

Lemma trace_bind {A B} (m : M A) (k : A → M B) :
  trace (bind m k) =
    trace m ++ match result m with Ret a => trace (k a) | _ => [] end.
Proof.
  destruct m as [t [a|e|c]]; simpl; [destruct (k a)|..]; simpl;
    by rewrite ?app_nil_r.
Qed.

Lemma result_try_catch {A} (m : M A) (h : JsError → M A) :
  result (try_catch m h) =
    match result m with
    | Throw e => result (h e)
    | o => o
    end.
Proof. destruct m as [t [a|e|c]]; simpl; [|destruct (h e)|]; done. Qed.

Lemma trace_try_catch {A} (m : M A) (h : JsError → M A) :
  trace (try_catch m h) =
    trace m ++ match result m with Throw e => trace (h e) | _ => [] end.
Proof.
  destruct m as [t [a|e|c]]; simpl; [|destruct (h e)|]; simpl;
    by rewrite ?app_nil_r.
Qed.

Lemma result_when (b : bool) (m : M unit) :
  result m = Ret tt → result (when b m) = Ret tt.
Proof. by destruct b. Qed.

Lemma result_forEach {A} (f : A → M unit) (arr : list A) :
  (∀ x, result (f x) = Ret tt) → result (forEach f arr) = Ret tt.
Proof.
  intros Hf. induction arr as [|x arr IH]; simpl; [done|].
  by rewrite result_bind, Hf.
Qed.

Lemma result_foldM {S A} (f : S → A → M S) (g : S → A → S) (s : S) (arr : list A) :
  (∀ s x, result (f s x) = Ret (g s x)) →
  result (foldM f s arr) = Ret (foldl g s arr).
Proof.
  intros Hf. revert s. induction arr as [|x arr IH]; intros s; simpl; [done|].
  by rewrite result_bind, Hf, IH.
Qed.

End NodeFacts.

(* ===================================================================== *)
(** * The filter composer: [computeGrepPattern] *)
(* ===================================================================== *)

Section Composer.
Import Index.

Lemma allTags_unfold (tags : list string) (options : option Options) :
  allTags tags options =
    tags ++ (if addBaseline_of options && negb (Js.includes tags BASELINE)
             then [BASELINE] else []).
Proof. unfold allTags. destruct (_ && _); by rewrite ?app_nil_r. Qed.

Lemma allTags_nil_iff (tags : list string) (options : option Options) :
  allTags tags options = [] ↔ addBaseline_of options = false ∧ tags = [].
Proof.
  unfold allTags. destruct (addBaseline_of options); simpl.
  - destruct (Js.includes tags BASELINE) eqn:Hinc; simpl.
    + apply includes_true in Hinc. split; [|by intros []].
      intros ->. by apply elem_of_nil in Hinc.
    + split; [|by intros []]. by destruct tags.
  - split; [done | by intros []].
Qed.

Lemma allTags_baseline (tags : list string) (options : option Options) :
  addBaseline_of options = true → BASELINE ∈ allTags tags options.
Proof.
  intros Hb. unfold allTags. rewrite Hb. simpl.
  destruct (Js.includes tags BASELINE) eqn:Hinc; simpl.
  - by apply includes_true.
  - apply elem_of_app. right. by apply list_elem_of_singleton.
Qed.

Lemma allTags_fixed (tags : list string) (options : option Options) :
  allTags (allTags tags options) options = allTags tags options.
Proof.
  destruct (addBaseline_of options) eqn:Hb.
  - pose proof (allTags_baseline tags options Hb) as Hin.
    apply includes_true in Hin.
    unfold allTags at 1. by rewrite Hin, andb_false_r.
  - unfold allTags. by rewrite Hb.
Qed.

Lemma computeGrepPattern_nonempty_list (tags : list string) (options : option Options) :
  allTags tags options ≠ [] →
  computeGrepPattern tags options = "(" +:+ Js.join "|" (allTags tags options) +:+ ")".
Proof.
  intros Hne. unfold computeGrepPattern. simpl.
  destruct (decide _) as [Hlen|]; [|done].
  by apply length_zero_iff_nil in Hlen.
Qed.

Lemma computeGrepPattern_empty_list (tags : list string) (options : option Options) :
  allTags tags options = [] → computeGrepPattern tags options = BASELINE.
Proof. intros Hnil. unfold computeGrepPattern. simpl. by rewrite Hnil. Qed.

(** The reference-level function returns the string of the value-level
    one and leaves every array that existed before the call as it was. *)
Lemma computeGrepPattern_ref_run (tags : Node.loc) (options : option Options)
    (σ : Node.store) (elements : list string) :
  σ !! tags = Some elements →
  ∃ σ', computeGrepPattern_ref tags options σ
          = Some (computeGrepPattern elements options, σ')
        ∧ ∀ l, l ∈ dom σ → σ' !! l = σ !! l.
Proof.
  intros Htags. unfold computeGrepPattern_ref, Node.alloc. rewrite Htags.
  set (new := fresh (dom σ)).
  assert (Hfresh : new ∉ dom σ) by apply is_fresh.
  rewrite lookup_insert_eq.
  assert (Hframe : ∀ (v : list string) l, l ∈ dom σ → <[new:=v]> σ !! l = σ !! l).
  { intros v l Hl. apply lookup_insert_ne. by intros <-. }
  unfold computeGrepPattern, allTags.
  destruct (addBaseline_of options && negb (Js.includes elements BASELINE)).
  - unfold Node.push. rewrite lookup_insert_eq, insert_insert_eq, lookup_insert_eq.
    eexists. split; [|by apply Hframe].
    by destruct (decide _).
  - rewrite lookup_insert_eq.
    eexists. split; [|by apply Hframe].
    by destruct (decide _).
Qed.

End Composer.

(** C2 (as stated, refuted): with no tags and [addBaseline] true the result
    is not the bare baseline tag. *)
Lemma C2_bare_baseline_refuted :
  Index.computeGrepPattern [] (Some {| Index.addBaseline := Some true |}) ≠ "@baseline".
Proof. vm_compute. discriminate. Qed.

(** C2 (amended): for an empty tag list and [addBaseline] true (given or by
    default), [computeGrepPattern] returns the baseline tag as the only
    member of a parenthesised group, the string [(@baseline)]. *)
Theorem C2_empty_tags_baseline_group (options : option Index.Options) :
  Index.addBaseline_of options = true →
  Index.computeGrepPattern [] options = "(" +:+ Index.BASELINE +:+ ")"
  ∧ Index.computeGrepPattern [] options = "(@baseline)".
Proof.
  intros Hb. unfold Index.computeGrepPattern, Index.allTags. rewrite Hb. by simpl.
Qed.

Lemma C2_empty_tags_baseline_group_witness :
  Index.addBaseline_of None = true
  ∧ Index.computeGrepPattern [] None = "(@baseline)".
Proof.
  split; [reflexivity|].
  apply (C2_empty_tags_baseline_group None). reflexivity.
Defined.

(** C3: [computeGrepPattern] never returns the empty string; the tag list
    after the baseline step is empty exactly when [addBaseline] is false and
    there are no tags, and then the result is the baseline tag alone. *)
Theorem C3_pattern_never_empty (tags : list string) (options : option Index.Options) :
  0 < String.length (Index.computeGrepPattern tags options)
  ∧ (Index.allTags tags options = []
       ↔ Index.addBaseline_of options = false ∧ tags = [])
  ∧ (Index.addBaseline_of options = false → tags = [] →
       Index.computeGrepPattern tags options = "@baseline").
Proof.
  split_and!.
  - unfold Index.computeGrepPattern. simpl. destruct (decide _); simpl; lia.
  - apply allTags_nil_iff.
  - intros Hb ->. apply computeGrepPattern_empty_list. by apply allTags_nil_iff.
Qed.

Lemma C3_pattern_never_empty_witness :
  Index.computeGrepPattern [] (Some {| Index.addBaseline := Some false |}) = "@baseline".
Proof.
  apply (C3_pattern_never_empty [] (Some {| Index.addBaseline := Some false |}));
    reflexivity.
Defined.

(** C4: when the tag list after the baseline step is not empty, the result
    is ["(" t1 "|" ... "|" tn ")"]: the input tags in input order, followed by
    the baseline tag exactly when [addBaseline] is true and the input does not
    contain it; the step never adds a second occurrence of the baseline tag. *)
Theorem C4_alternation_in_order (tags : list string) (options : option Index.Options) :
  Index.allTags tags options ≠ [] →
  let suffix :=
    if Index.addBaseline_of options && bool_decide (Index.BASELINE ∉ tags)
    then [Index.BASELINE] else [] in
  Index.computeGrepPattern tags options
    = "(" +:+ Js.join "|" (tags ++ suffix) +:+ ")"
  ∧ (Index.BASELINE ∈ tags → Index.allTags tags options = tags)
  ∧ (Index.BASELINE ∉ tags →
       count_occ string_dec (Index.allTags tags options) Index.BASELINE ≤ 1).
Proof.
  intros Hne suffix. split_and!.
  - rewrite computeGrepPattern_nonempty_list by done.
    rewrite allTags_unfold. subst suffix. unfold Js.includes.
    by rewrite bool_decide_not.
  - intros Hin. apply includes_true in Hin. unfold Index.allTags.
    by rewrite Hin, andb_false_r.
  - intros Hnin. rewrite allTags_unfold, count_occ_app.
    assert (count_occ string_dec tags Index.BASELINE = 0) as ->.
    { apply count_occ_not_In. by rewrite <- list_elem_of_In. }
    clear suffix. destruct (_ && _); [|simpl; lia].
    vm_compute. lia.
Qed.

Lemma C4_alternation_in_order_witness :
  Index.computeGrepPattern ["@auth"; "@api"] None = "(@auth|@api|@baseline)".
Proof.
  apply (C4_alternation_in_order ["@auth"; "@api"] None). discriminate.
Defined.

(** C10: [computeGrepPattern] leaves the array passed as [tags] unchanged,
    and every other array that existed before the call; the baseline tag is
    pushed onto a newly allocated copy only. *)
Theorem C10_input_not_mutated (tags : Node.loc) (options : option Index.Options)
    (σ : Node.store) (elements : list string) :
  σ !! tags = Some elements →
  ∃ pattern σ',
    Index.computeGrepPattern_ref tags options σ = Some (pattern, σ')
    ∧ σ' !! tags = Some elements
    ∧ (∀ l, l ∈ dom σ → σ' !! l = σ !! l)
    ∧ pattern = Index.computeGrepPattern elements options.
Proof.
  intros Htags.
  destruct (computeGrepPattern_ref_run tags options σ elements Htags)
    as (σ' & Hrun & Hframe).
  exists (Index.computeGrepPattern elements options), σ'.
  split_and!; [done | | done | done].
  rewrite Hframe; [done|]. apply elem_of_dom. by eexists.
Qed.

Lemma C10_input_not_mutated_witness :
  ∃ pattern σ',
    Index.computeGrepPattern_ref 1%positive None {[ 1%positive := ["@x"] ]}
      = Some (pattern, σ')
    ∧ σ' !! 1%positive = Some ["@x"]
    ∧ (∀ l, l ∈ dom ({[ 1%positive := ["@x"] ]} : Node.store) →
         σ' !! l = ({[ 1%positive := ["@x"] ]} : Node.store) !! l)
    ∧ pattern = Index.computeGrepPattern ["@x"] None.
Proof.
  apply (C10_input_not_mutated 1%positive None {[ 1%positive := ["@x"] ]} ["@x"]).
  reflexivity.
Defined.

(* ===================================================================== *)
(** * Re-composing a composed expression *)
(* ===================================================================== *)

Section Recompose.
Import Index Filter.

Lemma split_nonempty (sep : ascii) (s : string) : Js.split sep s ≠ [].
Proof.
  destruct s as [|c s]; simpl; [done|].
  destruct (decide (c = sep)); [done|]. by destruct (Js.split sep s).
Qed.

Lemma split_app (sep : ascii) (a b : string) :
  Js.split sep (a +:+ String sep b) = Js.split sep a ++ Js.split sep b.
Proof.
  induction a as [|c a IH]; simpl.
  - by rewrite decide_True.
  - destruct (decide (c = sep)); rewrite IH; [done|].
    pose proof (split_nonempty sep a) as Hne.
    by destruct (Js.split sep a).
Qed.

Lemma join_cons_head (sep : string) (c : ascii) (piece : string) (pieces : list string) :
  Js.join sep (String c piece :: pieces) = String c (Js.join sep (piece :: pieces)).
Proof. by destruct pieces. Qed.

Lemma join_split (sep : ascii) (s : string) :
  Js.join (String sep "") (Js.split sep s) = s.
Proof.
  induction s as [|c s IH]; simpl; [done|].
  pose proof (split_nonempty sep s) as Hne.
  destruct (decide (c = sep)) as [->|].
  - destruct (Js.split sep s) as [|piece pieces]; [done|].
    change (Js.join (String sep "") ("" :: piece :: pieces))
      with (String sep (Js.join (String sep "") (piece :: pieces))).
    by rewrite IH.
  - destruct (Js.split sep s) as [|piece pieces]; [done|].
    by rewrite join_cons_head, IH.
Qed.

Lemma split_join (sep : ascii) (arr : list string) :
  arr ≠ [] →
  Js.split sep (Js.join (String sep "") arr) = arr ≫= Js.split sep.
Proof.
  induction arr as [|x arr IH]; [done|]. intros _.
  destruct arr as [|y arr].
  - simpl. by rewrite app_nil_r.
  - change (Js.join (String sep "") (x :: y :: arr))
      with (x +:+ String sep (Js.join (String sep "") (y :: arr))).
    rewrite split_app, IH by done. done.
Qed.

Lemma without_closing_app (body : string) :
  without_closing (body +:+ ")") = Some body.
Proof.
  induction body as [|c body IH]; [done|].
  change (String c body +:+ ")") with (String c (body +:+ ")")).
  destruct (body +:+ ")") as [|d rest] eqn:Heq; [done|].
  change (without_closing (String c (String d rest)))
    with (String c <$> without_closing (String d rest)).
  by rewrite IH.
Qed.

Lemma patternTags_group (body : string) :
  patternTags ("(" +:+ body +:+ ")") = Js.split "|"%char body.
Proof.
  unfold patternTags, group_body.
  change ("(" +:+ body +:+ ")") with (String "("%char (body +:+ ")")).
  cbv beta iota. rewrite decide_True by done. by rewrite without_closing_app.
Qed.

Lemma baseline_survives (arr : list string) :
  BASELINE ∈ arr → BASELINE ∈ Js.split "|"%char (Js.join "|" arr).
Proof.
  intros Hin. rewrite split_join by (intros ->; by apply elem_of_nil in Hin).
  apply list_elem_of_bind. exists BASELINE. split; [|done].
  vm_compute. apply list_elem_of_here.
Qed.

Lemma recompose_group (tags : list string) (options : option Options) :
  allTags tags options ≠ [] →
  computeGrepPattern (patternTags (computeGrepPattern tags options)) options
    = computeGrepPattern tags options.
Proof.
  intros Hne. rewrite (computeGrepPattern_nonempty_list tags) by done.
  rewrite patternTags_group.
  set (pieces := Js.split "|"%char (Js.join "|" (allTags tags options))).
  assert (Hpieces : allTags pieces options = pieces).
  { unfold allTags. destruct (addBaseline_of options) eqn:Hb; [|done].
    assert (Hin : Js.includes pieces BASELINE = true).
    { apply includes_true, baseline_survives. by apply allTags_baseline. }
    by rewrite Hin. }
  rewrite computeGrepPattern_nonempty_list; rewrite Hpieces.
  - subst pieces. by rewrite (join_split "|"%char).
  - apply split_nonempty.
Qed.

End Recompose.

(** C5: composing again the tag list of a composed expression gives the
    same expression. This holds for the list the expression was built from
    ([allTags]); and for the list read off the text of the expression, except
    that the bare fallback [@baseline] (no tags, [addBaseline] false) is read
    as the one-tag list of the baseline tag and comes back as the group
    [(@baseline)]: the two expressions have the same tag list and differ only
    by the baseline tag having become a member of it. *)
Theorem C5_recomposition (tags : list string) (options : option Index.Options) :
  let e := Index.computeGrepPattern tags options in
  Index.computeGrepPattern (Index.allTags tags options) options = e
  ∧ Index.computeGrepPattern (Filter.patternTags e) options
      = (if decide (Index.allTags tags options = []) then "(@baseline)" else e)
  ∧ Filter.patternTags (Index.computeGrepPattern (Filter.patternTags e) options)
      = Filter.patternTags e.
Proof.
  intros e. subst e.
  assert (Hfallback : Index.allTags tags options = [] →
            Index.computeGrepPattern (Filter.patternTags
              (Index.computeGrepPattern tags options)) options = "(@baseline)").
  { intros Hnil. rewrite (computeGrepPattern_empty_list tags) by done.
    apply allTags_nil_iff in Hnil as [Hb _].
    unfold Index.computeGrepPattern, Index.allTags. rewrite Hb. done. }
  split_and!.
  - unfold Index.computeGrepPattern. by rewrite allTags_fixed.
  - destruct (decide _) as [Hnil|Hne]; [by apply Hfallback | by apply recompose_group].
  - destruct (decide (Index.allTags tags options = [])) as [Hnil|Hne].
    + rewrite Hfallback by done.
      by rewrite (computeGrepPattern_empty_list tags).
    + by rewrite recompose_group.
Qed.

(* ===================================================================== *)
(** * The tag resolver: [getMappedTags] *)
(* ===================================================================== *)

Section Resolver.
Import Node Index View.

Lemma getMappedTags_result (W : World) (changedFiles : list string)
    (mappings : Table) (verbose : option bool) :
  result (getMappedTags W changedFiles (inr mappings) verbose)
    = Ret (mappedTags changedFiles mappings).
Proof.
  unfold getMappedTags, mappedTags. rewrite !result_bind. simpl.
  rewrite result_bind, (result_foldM _ (file_step mappings)); [done|].
  intros tags file. unfold file_step.
  apply result_foldM. intros tags' [tag paths]. simpl.
  destruct (Js.some _ paths); [|done].
  rewrite result_bind, result_when; done.
Qed.

Lemma rule_step_elem (file T : string) (tags : Js.JsSet) (rule : string * list string) :
  T ∈ rule_step file tags rule ↔
    T ∈ tags ∨ (T = rule.1 ∧ Js.some (λ path, Js.startsWith file path) rule.2 = true).
Proof.
  destruct rule as [tag paths]. simpl.
  destruct (Js.some _ paths).
  - rewrite Set_add_elem. split; [intros [->|]; auto | intros [|[-> _]]; auto].
  - split; [auto | by intros [|[_ ?]]].
Qed.

Lemma file_step_elem (file T : string) (mappings : Table) (tags : Js.JsSet) :
  T ∈ file_step mappings tags file ↔
    T ∈ tags ∨ ∃ paths, (T, paths) ∈ mappings
                        ∧ Js.some (λ path, Js.startsWith file path) paths = true.
Proof.
  unfold file_step. revert tags.
  induction mappings as [|[tag paths] mappings IH]; intros tags; cbn [foldl].
  - split; [auto|]. intros [|(paths & Hin & _)]; [done|]. by apply elem_of_nil in Hin.
  - rewrite IH, rule_step_elem. simpl. split.
    + intros [[|[-> Hsome]]|(ps & Hin & Hsome)]; [by left| |].
      * right. exists paths. split; [apply list_elem_of_here | done].
      * right. exists ps. split; [by apply list_elem_of_further | done].
    + intros [|(ps & Hin & Hsome)]; [by left; left|].
      apply elem_of_cons in Hin as [Heq|Hin].
      * injection Heq as -> ->. left. by right.
      * right. by exists ps.
Qed.

Lemma files_fold_elem (T : string) (mappings : Table) (files : list string)
    (tags : Js.JsSet) :
  T ∈ foldl (file_step mappings) tags files ↔
    T ∈ tags ∨ ∃ file paths, file ∈ files ∧ (T, paths) ∈ mappings
                 ∧ Js.some (λ path, Js.startsWith file path) paths = true.
Proof.
  revert tags. induction files as [|file files IH]; intros tags; cbn [foldl].
  - split; [auto|]. intros [|(f & ps & Hin & _)]; [done|]. by apply elem_of_nil in Hin.
  - rewrite IH, file_step_elem. split.
    + intros [[|(ps & Hin & Hsome)]|(f & ps & Hf & Hin & Hsome)]; [by left| |].
      * right. exists file, ps. split; [apply list_elem_of_here | done].
      * right. exists f, ps. split; [by apply list_elem_of_further | done].
    + intros [|(f & ps & Hf & Hin & Hsome)]; [by left; left|].
      apply elem_of_cons in Hf as [->|Hf].
      * left. right. by exists ps.
      * right. by exists f, ps.
Qed.

Lemma rule_step_NoDup (file : string) (tags : Js.JsSet) (rule : string * list string) :
  NoDup tags → NoDup (rule_step file tags rule).
Proof.
  destruct rule as [tag paths]. simpl. intros Hnd.
  destruct (Js.some _ paths); [by apply Set_add_NoDup | done].
Qed.

Lemma file_step_NoDup (file : string) (mappings : Table) (tags : Js.JsSet) :
  NoDup tags → NoDup (file_step mappings tags file).
Proof.
  unfold file_step. revert tags.
  induction mappings as [|rule mappings IH]; intros tags Hnd; simpl; [done|].
  by apply IH, rule_step_NoDup.
Qed.

Lemma files_fold_NoDup (mappings : Table) (files : list string) (tags : Js.JsSet) :
  NoDup tags → NoDup (foldl (file_step mappings) tags files).
Proof.
  revert tags. induction files as [|file files IH]; intros tags Hnd; simpl; [done|].
  by apply IH, file_step_NoDup.
Qed.

End Resolver.

(** C1: for every mapping table and every list of changed files,
    [getMappedTags] returns (without throwing, whatever the verbosity) a list
    that contains a tag [T] if and only if some changed file starts with one
    of the prefixes configured for [T]; no tag occurs twice in it. *)
Theorem C1_mapped_tags_iff_prefix (W : Node.World) (changedFiles : list string)
    (mappings : Node.Table) (verbose : option bool) :
  ∃ tags,
    Node.result (Index.getMappedTags W changedFiles (inr mappings) verbose) = Node.Ret tags
    ∧ NoDup tags
    ∧ ∀ T, T ∈ tags ↔
        ∃ file paths path rest,
          file ∈ changedFiles ∧ (T, paths) ∈ mappings ∧ path ∈ paths
          ∧ Js.startsWith file path = true ∧ file = path +:+ rest.
Proof.
  exists (View.mappedTags changedFiles mappings). split_and!.
  - apply getMappedTags_result.
  - apply files_fold_NoDup, NoDup_nil_2.
  - intros T. unfold View.mappedTags, Js.Array_from. rewrite files_fold_elem. split.
    + intros [Hin|(file & paths & Hfile & Hrule & Hsome)]; [by apply elem_of_nil in Hin|].
      apply some_true in Hsome as (path & Hpath & Hstarts).
      destruct (proj1 (startsWith_spec file path) Hstarts) as [rest Hrest].
      by exists file, paths, path, rest.
    + intros (file & paths & path & rest & Hfile & Hrule & Hpath & Hstarts & _).
      right. exists file, paths. split_and!; [done..|].
      apply some_true. by exists path.
Qed.

(* ===================================================================== *)
(** * The change detector and the runner invoker *)
(* ===================================================================== *)

Section Processes.
Import Node Index View.
Context (W : World).

Lemma result_call_execSync (command : string) :
  result (call_execSync W command) =
    match execSync W command with inl e => Throw e | inr out => Ret out end.
Proof. unfold call_execSync. rewrite result_bind. simpl. by destruct (execSync W command). Qed.

Lemma trace_call_execSync (command : string) :
  trace (call_execSync W command) = [child_execSync command].
Proof. unfold call_execSync. rewrite trace_bind. simpl. by destruct (execSync W command). Qed.

Lemma files_of_output_blank (out : string) :
  Js.truthy (Js.trim out) = false → files_of_output out = [].
Proof.
  unfold files_of_output. destruct (Js.trim out); [done | discriminate].
Qed.

Lemma files_of_output_truthy (out : string) :
  "" ∉ files_of_output out.
Proof.
  unfold files_of_output. intros Hin.
  apply list_elem_of_filter in Hin as [Hempty _]. done.
Qed.

Lemma getChangedFiles_result (baseBranch : option string) (verbose : option bool) :
  result (getChangedFiles W baseBranch verbose)
    = Ret (detected W (default "main" baseBranch)).
Proof.
  unfold getChangedFiles, detected.
  set (base := default "main" baseBranch). set (v := default false verbose).
  rewrite result_try_catch, result_bind, result_call_execSync.
  destruct (execSync W branch_command) as [e|branch].
  { rewrite result_bind, result_when; done. }
  rewrite result_bind, result_when by done.
  rewrite result_bind, result_call_execSync.
  destruct (execSync W (diff_command base)) as [e|out].
  { rewrite result_bind, result_when; done. }
  destruct (Js.truthy (Js.trim out)) eqn:Hout; cbn [negb].
  - rewrite result_bind, result_when; [done|].
    rewrite result_bind. by apply result_forEach.
  - rewrite result_bind, result_when by done.
    by rewrite files_of_output_blank.
Qed.

Lemma runPlaywright_result (grepPattern : string) (additionalArgs : option (list string)) :
  result (runPlaywright W grepPattern additionalArgs) =
    Ret (match execSync W (playwright_command grepPattern (default [] additionalArgs)) with
         | inr _ => 0%Z
         | inl e => status_or_1 e
         end).
Proof.
  unfold runPlaywright.
  rewrite result_try_catch, result_bind, result_call_execSync.
  by destruct (execSync W _).
Qed.

Lemma runPlaywright_trace (grepPattern : string) (additionalArgs : option (list string)) :
  trace (runPlaywright W grepPattern additionalArgs) =
    [child_execSync (playwright_command grepPattern (default [] additionalArgs))].
Proof.
  unfold runPlaywright.
  rewrite trace_try_catch, trace_bind, trace_call_execSync.
  rewrite result_bind, result_call_execSync.
  by destruct (execSync W _).
Qed.

End Processes.

(** C6: [getChangedFiles] always returns a list and never throws. The list
    is empty when either git command fails, and when the diff succeeds with
    empty (or blank) output; it never has the empty string as an element. *)
Theorem C6_detector_fails_open (W : Node.World) (baseBranch : option string)
    (verbose : option bool) :
  let diff := Index.diff_command (default "main" baseBranch) in
  ∃ files,
    Node.result (Index.getChangedFiles W baseBranch verbose) = Node.Ret files
    ∧ ("" ∉ files)
    ∧ files ≠ [""]
    ∧ (∀ e, Node.execSync W diff = inl e → files = [])
    ∧ (∀ e, Node.execSync W Index.branch_command = inl e → files = [])
    ∧ (Node.execSync W diff = inr "" → files = [])
    ∧ (∀ out, Node.execSync W diff = inr out → Js.trim out = "" → files = []).
Proof.
  intros diff. exists (View.detected W (default "main" baseBranch)).
  assert (Hnotin : "" ∉ View.detected W (default "main" baseBranch)).
  { unfold View.detected. destruct (Node.execSync W Index.branch_command);
      [apply not_elem_of_nil|].
    destruct (Node.execSync W _); [apply not_elem_of_nil|].
    apply files_of_output_truthy. }
  assert (Hblank : ∀ out, Node.execSync W diff = inr out → Js.trim out = "" →
            View.detected W (default "main" baseBranch) = []).
  { intros out Hout Htrim. unfold View.detected. subst diff. rewrite Hout.
    destruct (Node.execSync W Index.branch_command); [done|].
    apply files_of_output_blank. by rewrite Htrim. }
  split_and!.
  - apply getChangedFiles_result.
  - done.
  - intros Heq. apply Hnotin. rewrite Heq. apply list_elem_of_here.
  - intros e He. unfold View.detected. subst diff. rewrite He.
    by destruct (Node.execSync W Index.branch_command).
  - intros e He. unfold View.detected. by rewrite He.
  - intros Hout. by apply (Hblank "").
  - done.
Qed.

(** C8: [runPlaywright] always returns an integer and never throws: 0 when
    the command succeeds, the status carried by the failure when it carries
    one (a non-zero number), and 1 when the failure carries none. *)
Theorem C8_runner_status (W : Node.World) (grepPattern : string)
    (additionalArgs : option (list string)) :
  let command := Index.playwright_command grepPattern (default [] additionalArgs) in
  ∃ code : Z,
    Node.result (Index.runPlaywright W grepPattern additionalArgs) = Node.Ret code
    ∧ (∀ out, Node.execSync W command = inr out → code = 0%Z)
    ∧ (∀ e n, Node.execSync W command = inl e → Node.status e = Some n → n ≠ 0%Z →
         code = n)
    ∧ (∀ e, Node.execSync W command = inl e → Node.status e = None → code = 1%Z).
Proof.
  intros command. eexists. split; [apply runPlaywright_result|].
  fold command. split_and!.
  - by intros out ->.
  - intros e n -> Hstatus Hn. unfold Index.status_or_1. rewrite Hstatus.
    by rewrite decide_False.
  - intros e -> Hstatus. unfold Index.status_or_1. by rewrite Hstatus.
Qed.

(* ===================================================================== *)
(** * The commands of the CLI *)
(* ===================================================================== *)

Section Commands.
Import Node Index View Cli.
Context (W : World).

Lemma quiet_nil : quiet [].
Proof. done. Qed.

Lemma quiet_app (t1 t2 : list event) : quiet t1 → quiet t2 → quiet (t1 ++ t2).
Proof.
  unfold quiet, runner_calls, mapping_accesses.
  intros [Hr1 Hm1] [Hr2 Hm2]. rewrite !omap_app. by rewrite Hr1, Hr2, Hm1, Hm2.
Qed.

Lemma runner_calls_app (t1 t2 : list event) :
  runner_calls (t1 ++ t2) = runner_calls t1 ++ runner_calls t2.
Proof. apply omap_app. Qed.

Lemma mapping_accesses_app (t1 t2 : list event) :
  mapping_accesses (t1 ++ t2) = mapping_accesses t1 ++ mapping_accesses t2.
Proof. apply omap_app. Qed.

Lemma quiet_bind {A B} (m : M A) (k : A → M B) :
  quiet (trace m) → (∀ a, quiet (trace (k a))) → quiet (trace (bind m k)).
Proof.
  intros Hm Hk. rewrite trace_bind. apply quiet_app; [done|].
  destruct (result m); [apply Hk | apply quiet_nil..].
Qed.

Lemma quiet_try_catch {A} (m : M A) (h : JsError → M A) :
  quiet (trace m) → (∀ e, quiet (trace (h e))) → quiet (trace (try_catch m h)).
Proof.
  intros Hm Hh. rewrite trace_try_catch. apply quiet_app; [done|].
  destruct (result m); [apply quiet_nil | apply Hh | apply quiet_nil].
Qed.

Lemma quiet_when (b : bool) (m : M unit) : quiet (trace m) → quiet (trace (when b m)).
Proof. by destruct b. Qed.

Lemma quiet_log args : quiet (trace (console.log args)).
Proof. done. Qed.

Lemma quiet_warn args : quiet (trace (console.warn args)).
Proof. done. Qed.

Lemma quiet_ret {A} (a : A) : quiet (trace (ret a)).
Proof. done. Qed.

Lemma quiet_forEach {A} (f : A → M unit) (arr : list A) :
  (∀ x, quiet (trace (f x))) → quiet (trace (forEach f arr)).
Proof.
  intros Hf. induction arr as [|x arr IH]; simpl; [done|].
  by apply quiet_bind.
Qed.

Lemma quiet_git (command : string) :
  Js.startsWith command "npx playwright test" = false →
  quiet (trace (call_execSync W command)).
Proof.
  intros Hgit. rewrite trace_call_execSync.
  unfold quiet, runner_calls, mapping_accesses. cbv [omap list_omap].
  by rewrite Hgit.
Qed.

Lemma quiet_getChangedFiles (baseBranch : option string) (verbose : option bool) :
  quiet (trace (getChangedFiles W baseBranch verbose)).
Proof.
  unfold getChangedFiles. apply quiet_try_catch.
  - apply quiet_bind; [by apply quiet_git|]. intros branch.
    apply quiet_bind.
    { apply quiet_when, quiet_bind; [apply quiet_log | intros; apply quiet_log]. }
    intros _. apply quiet_bind; [by apply quiet_git|]. intros out.
    destruct (negb _).
    + apply quiet_bind; [apply quiet_when, quiet_log | intros; apply quiet_ret].
    + apply quiet_bind; [|intros; apply quiet_ret].
      apply quiet_when, quiet_bind; [apply quiet_log|]. intros _.
      apply quiet_forEach. intros file. apply quiet_log.
  - intros e. apply quiet_bind; [apply quiet_when, quiet_warn | intros; apply quiet_ret].
Qed.

Lemma result_print_configuration (config : Config) :
  result (print_configuration config) = Ret tt.
Proof. done. Qed.

Lemma quiet_print_configuration (config : Config) :
  quiet (trace (print_configuration config)).
Proof. done. Qed.

Lemma loadMappings_missing (mappingsFile : string) :
  existsSync W (path_resolve W (cwd W) mappingsFile) = false →
  loadMappings W mappingsFile =
    ([fs_existsSync (path_resolve W (cwd W) mappingsFile)],
     Throw (Error ("Mappings file not found: "
                     +:+ path_resolve W (cwd W) mappingsFile))).
Proof.
  intros Hmissing. unfold loadMappings, call_existsSync. simpl.
  by rewrite Hmissing.
Qed.

(** Every call of [loadMappings] leaves a mark in the trace. *)
Lemma loadMappings_leaves_mark (mappingsFile : string) :
  path_resolve W (cwd W) mappingsFile
    ∈ mapping_accesses (trace (loadMappings W mappingsFile)).
Proof.
  unfold loadMappings. rewrite trace_bind, mapping_accesses_app.
  apply elem_of_app. left. apply list_elem_of_here.
Qed.

End Commands.

Section CommandRuns.
Import Node Index View Cli.
Context (W : World) (config : Config) (playwrightArgs : list string).

Lemma result_preamble :
  result (when (verbose config)
            (bind (print_configuration config) (λ _, console.log []))) = Ret tt.
Proof. by apply result_when. Qed.

Lemma quiet_preamble :
  quiet (trace (when (verbose config)
                  (bind (print_configuration config) (λ _, console.log [])))).
Proof.
  apply quiet_when, quiet_bind;
    [apply quiet_print_configuration | intros; apply quiet_log].
Qed.

Lemma elem_of_mapping_accesses (t : list event) (path : string) :
  fs_existsSync path ∈ t ∨ module_require path ∈ t → path ∈ mapping_accesses t.
Proof.
  intros Hin. unfold mapping_accesses. apply list_elem_of_omap.
  destruct Hin as [Hin|Hin]; eexists; (split; [exact Hin | done]).
Qed.

(** With no detected change, the run is the preamble, the detection, and
    one call of the runner on the bare baseline tag. *)
Lemma runCommand_no_changes :
  env_MAPPER_DISABLE W ≠ Some "1" →
  detected W (baseBranch config) = [] →
  result (runCommand W config playwrightArgs)
    = result (runPlaywright W "@baseline" (Some playwrightArgs))
  ∧ ∃ pre, quiet pre
      ∧ trace (runCommand W config playwrightArgs)
          = pre ++ [child_execSync (playwright_command "@baseline" playwrightArgs)].
Proof.
  intros Henv Hdet. unfold runCommand. rewrite decide_False by done.
  pose proof (getChangedFiles_result W (Some (baseBranch config)) (Some (verbose config)))
    as Hres. simpl in Hres. rewrite Hdet in Hres.
  split.
  - rewrite result_bind, result_preamble, result_bind, Hres.
    rewrite decide_True by done.
    by rewrite result_bind, result_when.
  - rewrite trace_bind, result_preamble, trace_bind, Hres.
    rewrite decide_True by done.
    rewrite trace_bind, result_when by done. rewrite runPlaywright_trace.
    eexists. split; [|by rewrite !app_assoc].
    repeat apply quiet_app; [apply quiet_preamble | apply quiet_getChangedFiles |].
    apply quiet_when, quiet_log.
Qed.

(** With detected changes and no mappings file, the run is the preamble,
    the detection, the failed lookup, two diagnostics, and one call of the
    runner on the match-all filter. *)
Lemma runCommand_missing_mappings :
  env_MAPPER_DISABLE W ≠ Some "1" →
  detected W (baseBranch config) ≠ [] →
  existsSync W (path_resolve W (cwd W) (mappingsFile config)) = false →
  result (runCommand W config playwrightArgs)
    = result (runPlaywright W ".*" (Some playwrightArgs))
  ∧ ∃ pre, quiet pre
      ∧ trace (runCommand W config playwrightArgs)
          = pre ++ [fs_existsSync (path_resolve W (cwd W) (mappingsFile config));
                    console_error ("[mapper] Error: Mappings file not found: "
                                     +:+ path_resolve W (cwd W) (mappingsFile config));
                    console_error "[mapper] Falling back to running all tests";
                    child_execSync (playwright_command ".*" playwrightArgs)].
Proof.
  intros Henv Hdet Hmissing. unfold runCommand. rewrite decide_False by done.
  pose proof (getChangedFiles_result W (Some (baseBranch config)) (Some (verbose config)))
    as Hres. simpl in Hres.
  assert (Hlen : length (detected W (baseBranch config)) ≠ 0).
  { by destruct (detected W (baseBranch config)). }
  rewrite (loadMappings_missing W _ Hmissing).
  pose proof (runPlaywright_trace W ".*" (Some playwrightArgs)) as Hrunner.
  destruct (runPlaywright W ".*" (Some playwrightArgs)) as [t o].
  simpl in Hrunner. subst t.
  split.
  - rewrite result_bind, result_preamble, result_bind, Hres.
    by rewrite decide_False by done.
  - rewrite trace_bind, result_preamble, trace_bind, Hres.
    rewrite decide_False by done. simpl.
    eexists. split; [|by rewrite app_assoc].
    apply quiet_app; [apply quiet_preamble | apply quiet_getChangedFiles].
Qed.

(** With detected changes and no mappings file, the listing prints the
    configuration, detects, reports the failure and exits with status 1. *)
Lemma listCommand_missing_mappings :
  detected W (baseBranch config) ≠ [] →
  existsSync W (path_resolve W (cwd W) (mappingsFile config)) = false →
  result (listCommand W config) = Exit 1%Z
  ∧ ∃ pre, quiet pre
      ∧ trace (listCommand W config)
          = pre ++ [fs_existsSync (path_resolve W (cwd W) (mappingsFile config));
                    console_error ("[mapper] Error: Mappings file not found: "
                                     +:+ path_resolve W (cwd W) (mappingsFile config))].
Proof.
  intros Hdet Hmissing. unfold listCommand.
  pose proof (getChangedFiles_result W (Some (baseBranch config)) (Some true))
    as Hres. simpl in Hres.
  assert (Hlen : length (detected W (baseBranch config)) ≠ 0).
  { by destruct (detected W (baseBranch config)). }
  rewrite (loadMappings_missing W _ Hmissing).
  split.
  - rewrite result_bind, result_print_configuration, result_bind, Hres.
    by rewrite decide_False by done.
  - rewrite trace_bind, result_print_configuration, trace_bind, Hres.
    rewrite decide_False by done. simpl.
    exists (trace (print_configuration config)
              ++ trace (getChangedFiles W (Some (baseBranch config)) (Some true))
              ++ [console_log ""]).
    split; [|by rewrite <- !app_assoc].
    apply quiet_app; [apply quiet_print_configuration|].
    apply quiet_app; [apply quiet_getChangedFiles | done].
Qed.

End CommandRuns.

(** C7: when the resolved mappings path does not exist, [loadMappings]
    throws the error "Mappings file not found: <resolved path>". A run that
    reaches the loader (mapper not disabled, some change detected) catches
    it, reports it, and calls the runner exactly once, with the filter [.*],
    returning the runner's status. A listing that reaches the loader (some
    change detected) reports it and ends the process with status 1 without
    calling the runner. *)
Theorem C7_missing_mappings_file (W : Node.World) (config : Cli.Config)
    (playwrightArgs : list string) :
  let resolved := Node.path_resolve W (Node.cwd W) (Cli.mappingsFile config) in
  let notFound := Node.Error ("Mappings file not found: " +:+ resolved) in
  let report := Node.console_error ("[mapper] Error: " +:+ Node.message notFound) in
  Node.existsSync W resolved = false →
  Node.result (Index.loadMappings W (Cli.mappingsFile config)) = Node.Throw notFound
  ∧ (Node.env_MAPPER_DISABLE W ≠ Some "1" →
     Node.result (Index.getChangedFiles W (Some (Cli.baseBranch config))
                    (Some (Cli.verbose config))) ≠ Node.Ret [] →
     let run := Cli.runCommand W config playwrightArgs in
     View.runner_calls (Node.trace run) = [Index.playwright_command ".*" playwrightArgs]
     ∧ Node.result run = Node.result (Index.runPlaywright W ".*" (Some playwrightArgs))
     ∧ report ∈ Node.trace run)
  ∧ (Node.result (Index.getChangedFiles W (Some (Cli.baseBranch config)) (Some true))
       ≠ Node.Ret [] →
     let listing := Cli.listCommand W config in
     Node.result listing = Node.Exit 1%Z
     ∧ View.runner_calls (Node.trace listing) = []
     ∧ report ∈ Node.trace listing).
Proof.
  intros resolved notFound report Hmissing. split_and!.
  - by rewrite (loadMappings_missing W _ Hmissing).
  - intros Henv Hchanged run.
    rewrite getChangedFiles_result in Hchanged. simpl in Hchanged.
    destruct (runCommand_missing_mappings W config playwrightArgs Henv)
      as (Hres & pre & [Hpre _] & Htrace); [congruence | done |].
    subst run. rewrite Htrace. split_and!; [|done|].
    + rewrite runner_calls_app, Hpre. done.
    + apply elem_of_app. right. apply list_elem_of_further, list_elem_of_here.
  - intros Hchanged listing.
    rewrite getChangedFiles_result in Hchanged. simpl in Hchanged.
    destruct (listCommand_missing_mappings W config)
      as (Hres & pre & [Hpre _] & Htrace); [congruence | done |].
    subst listing. rewrite Htrace. split_and!; [done| |].
    + rewrite runner_calls_app, Hpre. done.
    + apply elem_of_app. right. apply list_elem_of_further, list_elem_of_here.
Qed.

Lemma C7_missing_mappings_file_witness :
  Node.existsSync Sample.changed "/repo/test-mappings.js" = false
  ∧ Node.result (Index.loadMappings Sample.changed "test-mappings.js")
      = Node.Throw (Node.Error "Mappings file not found: /repo/test-mappings.js")
  ∧ View.runner_calls (Node.trace (Cli.runCommand Sample.changed Cli.DEFAULT_CONFIG []))
      = [Index.playwright_command ".*" []]
  ∧ Node.result (Cli.listCommand Sample.changed Cli.DEFAULT_CONFIG) = Node.Exit 1%Z.
Proof.
  destruct (C7_missing_mappings_file Sample.changed Cli.DEFAULT_CONFIG [] eq_refl)
    as (Hload & Hrun & Hlist).
  split_and!.
  - reflexivity.
  - exact Hload.
  - apply Hrun; [discriminate | vm_compute; discriminate].
  - apply Hlist. vm_compute. discriminate.
Defined.

(** C9: in a run that detects changes (mapper not disabled) and finds none,
    the runner is called exactly once, on the bare baseline tag [@baseline],
    whatever the configuration ([addBaseline] false included); the status
    returned is the runner's, and no mappings path is looked up on disk or
    loaded. *)
Theorem C9_no_changes_baseline_only (W : Node.World) (config : Cli.Config)
    (playwrightArgs : list string) :
  Node.env_MAPPER_DISABLE W ≠ Some "1" →
  Node.result (Index.getChangedFiles W (Some (Cli.baseBranch config))
                 (Some (Cli.verbose config))) = Node.Ret [] →
  let run := Cli.runCommand W config playwrightArgs in
  View.runner_calls (Node.trace run) = [Index.playwright_command "@baseline" playwrightArgs]
  ∧ Node.result run = Node.result (Index.runPlaywright W "@baseline" (Some playwrightArgs))
  ∧ View.mapping_accesses (Node.trace run) = []
  ∧ ∀ path, (Node.fs_existsSync path ∉ Node.trace run)
            ∧ (Node.module_require path ∉ Node.trace run).
Proof.
  intros Henv Hnone run.
  rewrite getChangedFiles_result in Hnone. simpl in Hnone.
  destruct (runCommand_no_changes W config playwrightArgs Henv)
    as (Hres & pre & [Hcalls Haccess] & Htrace); [congruence|].
  assert (Hquiet : View.mapping_accesses (Node.trace run) = []).
  { subst run. by rewrite Htrace, mapping_accesses_app, Haccess. }
  split_and!; [|done|done|].
  - subst run. by rewrite Htrace, runner_calls_app, Hcalls.
  - intros path.
    split; intros Hin;
      (eapply elem_of_nil; rewrite <- Hquiet;
       apply elem_of_mapping_accesses; eauto).
Qed.

Lemma C9_no_changes_baseline_only_witness :
  Node.env_MAPPER_DISABLE Sample.unchanged ≠ Some "1"
  ∧ View.runner_calls
      (Node.trace (Cli.runCommand Sample.unchanged
                     {| Cli.mappingsFile := "test-mappings.js"; Cli.baseBranch := "main";
                        Cli.addBaseline := false; Cli.verbose := true |} ["--headed"]))
    = [Index.playwright_command "@baseline" ["--headed"]].
Proof.
  split; [discriminate|].
  apply (C9_no_changes_baseline_only Sample.unchanged
           {| Cli.mappingsFile := "test-mappings.js"; Cli.baseBranch := "main";
              Cli.addBaseline := false; Cli.verbose := true |} ["--headed"]);
    [discriminate | reflexivity].
Defined.

Lemma C6_detector_fails_open_witness :
  Node.execSync Sample.unchanged (Index.diff_command "main") = inr ""
  ∧ Node.result (Index.getChangedFiles Sample.unchanged None None) = Node.Ret []
  ∧ Node.result (Index.getChangedFiles Sample.killed None (Some true)) = Node.Ret [].
Proof.
  split_and!.
  - reflexivity.
  - destruct (C6_detector_fails_open Sample.unchanged None None)
      as (files & Hres & _ & _ & _ & _ & Hempty & _).
    rewrite Hres. f_equal. apply Hempty. reflexivity.
  - destruct (C6_detector_fails_open Sample.killed None (Some true))
      as (files & Hres & _ & _ & Hfail & _).
    rewrite Hres. f_equal. eapply Hfail. reflexivity.
Defined.

Lemma C8_runner_status_witness :
  Node.result (Index.runPlaywright Sample.changed "(@auth|@baseline)" None) = Node.Ret 2%Z
  ∧ Node.result (Index.runPlaywright Sample.killed "(@auth|@baseline)" None) = Node.Ret 1%Z.
Proof.
  split.
  - destruct (C8_runner_status Sample.changed "(@auth|@baseline)" None)
      as (code & Hres & _ & Hstatus & _).
    rewrite Hres. f_equal. eapply Hstatus; [reflexivity | reflexivity | discriminate].
  - destruct (C8_runner_status Sample.killed "(@auth|@baseline)" None)
      as (code & Hres & _ & _ & Hnone).
    rewrite Hres. f_equal. eapply Hnone; reflexivity.
Defined.

(* ===================================================================== *)
(** * Worked examples *)
(* ===================================================================== *)

Example resolve_example :
  Node.result (Index.getMappedTags Sample.changed
                 ["src/auth/login.ts"; "src/api/users.ts"] (inr Sample.table) None)
    = Node.Ret ["@auth"; "@api"].
Proof. reflexivity. Qed.

Example compose_example :
  Index.computeGrepPattern ["@auth"; "@api"] None = "(@auth|@api|@baseline)".
Proof. reflexivity. Qed.

Example compose_without_baseline :
  Index.computeGrepPattern ["@x"] (Some {| Index.addBaseline := Some false |}) = "(@x)".
Proof. reflexivity. Qed.

Example prefix_is_not_segment_aware :
  Js.startsWith "src/returns/x.ts" "src/ret" = true.
Proof. reflexivity. Qed.

Example detect_example :
  Node.result (Index.getChangedFiles Sample.changed (Some "main") (Some true))
    = Node.Ret ["src/auth/login.ts"].
Proof. reflexivity. Qed.

Example run_falls_back :
  Cli.runCommand Sample.changed Cli.DEFAULT_CONFIG [] =
    ([Node.child_execSync "git rev-parse --abbrev-ref HEAD";
      Node.child_execSync "git diff --name-only main...HEAD";
      Node.fs_existsSync "/repo/test-mappings.js";
      Node.console_error "[mapper] Error: Mappings file not found: /repo/test-mappings.js";
      Node.console_error "[mapper] Falling back to running all tests";
      Node.child_execSync (Index.playwright_command ".*" [])],
     Node.Ret 2%Z).
Proof. reflexivity. Qed.

(* ===================================================================== *)
(** * More on the loader and the resolver *)
(* ===================================================================== *)

Section LoaderMore.
Import Node Index View.
Context (W : World).

Lemma loadMappings_present (mappingsFile : string) :
  existsSync W (path_resolve W (cwd W) mappingsFile) = true →
  loadMappings W mappingsFile =
    ([fs_existsSync (path_resolve W (cwd W) mappingsFile);
      module_require (path_resolve W (cwd W) mappingsFile)],
     match require W (path_resolve W (cwd W) mappingsFile) with
     | inl e => Throw e
     | inr m => Ret (default (own_table m) (default_export m))
     end).
Proof.
  intros Hpresent. unfold loadMappings, call_existsSync, call_require. simpl.
  rewrite Hpresent. simpl.
  destruct (require W _) as [e|m]; [done|]. unfold ret. simpl.
  by destruct (default_export m).
Qed.

Lemma Set_add_extends (x : string) (s : Js.JsSet) : ∃ added, Js.Set_add x s = s ++ added.
Proof.
  unfold Js.Set_add. case_bool_decide; [exists []; by rewrite app_nil_r | by eexists].
Qed.

Lemma file_step_extends (mappings : Table) (file : string) (tags : Js.JsSet) :
  ∃ added, file_step mappings tags file = tags ++ added.
Proof.
  unfold file_step. revert tags.
  induction mappings as [|[tag paths] mappings IH]; intros tags; cbn [foldl].
  - exists []. by rewrite app_nil_r.
  - destruct (IH (rule_step file tags (tag, paths))) as [added ->].
    simpl. destruct (Js.some _ paths).
    + destruct (Set_add_extends tag tags) as [first ->].
      exists (first ++ added). by rewrite app_assoc.
    + by exists added.
Qed.

Lemma files_fold_extends (mappings : Table) (files : list string) (tags : Js.JsSet) :
  ∃ added, foldl (file_step mappings) tags files = tags ++ added.
Proof.
  revert tags. induction files as [|file files IH]; intros tags; cbn [foldl].
  - exists []. by rewrite app_nil_r.
  - destruct (file_step_extends mappings file tags) as [first Hfirst].
    destruct (IH (file_step mappings tags file)) as [added ->].
    rewrite Hfirst. exists (first ++ added). by rewrite app_assoc.
Qed.

(** The diagnostics of the inner loop do not depend on the [Set]. *)
Lemma rules_trace (verbose : bool) (file : string) (mappings : Table) (tags : Js.JsSet) :
  trace (foldM (λ tags '(tag, paths),
           if Js.some (λ path, Js.startsWith file path) paths then
             bind (when verbose
                     (console.log ["[mapper] " +:+ file +:+ " → " +:+ tag]))
                  (λ _, ret (Js.Set_add tag tags))
           else ret tags) tags mappings)
    = if verbose
      then (λ '(file, tag), console_log ("[mapper] " +:+ file +:+ " → " +:+ tag))
             <$> Shape.matches [file] mappings
      else [].
Proof.
  unfold Shape.matches. rewrite bind_singleton.
  revert tags. induction mappings as [|[tag paths] mappings IH]; intros tags.
  - by destruct verbose.
  - cbn [foldM]. rewrite trace_bind, bind_cons, fmap_app. cbn [fst snd].
    destruct (Js.some _ paths).
    + rewrite result_bind, result_when by done. cbn [result ret snd].
      rewrite trace_bind, result_when by done. cbn [trace ret fst].
      rewrite app_nil_r, IH. by destruct verbose.
    + cbn [result trace ret fst snd]. rewrite IH. by destruct verbose.
Qed.

Lemma rules_result (verbose : bool) (file : string) (mappings : Table) (tags : Js.JsSet) :
  result (foldM (λ tags '(tag, paths),
           if Js.some (λ path, Js.startsWith file path) paths then
             bind (when verbose
                     (console.log ["[mapper] " +:+ file +:+ " → " +:+ tag]))
                  (λ _, ret (Js.Set_add tag tags))
           else ret tags) tags mappings)
    = Ret (file_step mappings tags file).
Proof.
  apply result_foldM. intros tags' [tag paths]. simpl.
  destruct (Js.some _ paths); [|done].
  rewrite result_bind, result_when; done.
Qed.

Lemma getMappedTags_trace (changedFiles : list string) (mappings : Table)
    (verbose : option bool) :
  trace (getMappedTags W changedFiles (inr mappings) verbose)
    = if default false verbose
      then (λ '(file, tag), console_log ("[mapper] " +:+ file +:+ " → " +:+ tag))
             <$> Shape.matches changedFiles mappings
      else [].
Proof.
  unfold getMappedTags. set (v := default false verbose).
  rewrite trace_bind. cbn [trace result ret fst snd app].
  rewrite trace_bind.
  assert (Hloop : ∀ tags,
    trace (foldM (λ tags file,
             foldM (λ tags '(tag, paths),
               if Js.some (λ path, Js.startsWith file path) paths then
                 bind (when v (console.log ["[mapper] " +:+ file +:+ " → " +:+ tag]))
                      (λ _, ret (Js.Set_add tag tags))
               else ret tags) tags mappings) tags changedFiles)
      = if v
        then (λ '(file, tag), console_log ("[mapper] " +:+ file +:+ " → " +:+ tag))
               <$> Shape.matches changedFiles mappings
        else []).
  { induction changedFiles as [|file files IH]; intros tags.
    - by destruct v.
    - cbn [foldM]. rewrite trace_bind, rules_trace, rules_result, IH.
      unfold Shape.matches. rewrite bind_singleton, bind_cons, fmap_app.
      by destruct v. }
  rewrite Hloop.
  destruct (result _); cbn [trace ret fst]; by rewrite app_nil_r.
Qed.

End LoaderMore.

(** X1: when the resolved mappings path exists, [loadMappings] looks it up,
    loads the module, and returns the table under [default] when the module
    has one, the module's own table otherwise; an error thrown while loading
    the module is thrown on unchanged. *)
Theorem X1_loadMappings_present (W : Node.World) (mappingsFile : string) :
  let resolved := Node.path_resolve W (Node.cwd W) mappingsFile in
  Node.existsSync W resolved = true →
  Node.trace (Index.loadMappings W mappingsFile)
    = [Node.fs_existsSync resolved; Node.module_require resolved]
  ∧ (∀ e, Node.require W resolved = inl e →
       Node.result (Index.loadMappings W mappingsFile) = Node.Throw e)
  ∧ (∀ m table, Node.require W resolved = inr m →
       Node.default_export m = Some table →
       Node.result (Index.loadMappings W mappingsFile) = Node.Ret table)
  ∧ (∀ m, Node.require W resolved = inr m → Node.default_export m = None →
       Node.result (Index.loadMappings W mappingsFile) = Node.Ret (Node.own_table m)).
Proof.
  intros resolved Hpresent. rewrite (loadMappings_present W _ Hpresent).
  fold resolved. split_and!; [done|..].
  - by intros e ->.
  - by intros m table -> ->.
  - by intros m -> ->.
Qed.

Lemma X1_loadMappings_present_witness :
  Node.result (Index.loadMappings Scenario.mapped "test-mappings.js")
    = Node.Ret Sample.table
  ∧ Node.result (Index.loadMappings Scenario.broken "test-mappings.js")
    = Node.Throw (Node.Error "Unexpected token").
Proof.
  destruct (X1_loadMappings_present Scenario.mapped "test-mappings.js" eq_refl)
    as (_ & _ & _ & Hown).
  destruct (X1_loadMappings_present Scenario.broken "test-mappings.js" eq_refl)
    as (_ & Hthrow & _).
  split.
  - apply (Hown {| Node.default_export := None; Node.own_table := Sample.table |});
      reflexivity.
  - apply Hthrow. reflexivity.
Defined.

(** X2: [getMappedTags] given a path throws the loader's error when the file
    is missing or fails to load, and otherwise returns what it returns for
    the table the module exports. *)
Theorem X2_getMappedTags_from_path (W : Node.World) (changedFiles : list string)
    (mappingsFile : string) (verbose : option bool) :
  let resolved := Node.path_resolve W (Node.cwd W) mappingsFile in
  let outcome := Node.result (Index.getMappedTags W changedFiles (inl mappingsFile) verbose) in
  (Node.existsSync W resolved = false →
     outcome = Node.Throw (Node.Error ("Mappings file not found: " +:+ resolved)))
  ∧ (∀ e, Node.existsSync W resolved = true → Node.require W resolved = inl e →
       outcome = Node.Throw e)
  ∧ (∀ m, Node.existsSync W resolved = true → Node.require W resolved = inr m →
       outcome = Node.result
                   (Index.getMappedTags W changedFiles
                      (inr (default (Node.own_table m) (Node.default_export m))) verbose)).
Proof.
  intros resolved outcome. subst outcome. unfold Index.getMappedTags.
  split_and!.
  - intros Hmissing. by rewrite (loadMappings_missing W _ Hmissing).
  - intros e Hpresent Hload. rewrite (loadMappings_present W _ Hpresent).
    fold resolved. by rewrite Hload.
  - intros m Hpresent Hload. rewrite (loadMappings_present W _ Hpresent).
    fold resolved. rewrite Hload, !result_bind. done.
Qed.

Lemma X2_getMappedTags_from_path_witness :
  Node.result (Index.getMappedTags Scenario.mapped ["src/api/users.ts"]
                 (inl "test-mappings.js") None) = Node.Ret ["@api"]
  ∧ Node.result (Index.getMappedTags Sample.changed ["src/api/users.ts"]
                   (inl "test-mappings.js") None)
    = Node.Throw (Node.Error "Mappings file not found: /repo/test-mappings.js").
Proof.
  destruct (X2_getMappedTags_from_path Scenario.mapped ["src/api/users.ts"]
              "test-mappings.js" None) as (_ & _ & Hloaded).
  destruct (X2_getMappedTags_from_path Sample.changed ["src/api/users.ts"]
              "test-mappings.js" None) as (Hmissing & _ & _).
  split.
  - rewrite (Hloaded {| Node.default_export := None; Node.own_table := Sample.table |});
      reflexivity.
  - apply Hmissing. reflexivity.
Defined.


(** X4: considering more changed files never removes or reorders a tag:
    the tags for [changedFiles] are an initial segment of the tags for
    [changedFiles ++ more]. *)
Theorem X4_mapped_tags_grow (W : Node.World) (changedFiles more : list string)
    (mappings : Node.Table) (verbose : option bool) :
  ∃ tags added,
    Node.result (Index.getMappedTags W changedFiles (inr mappings) verbose)
      = Node.Ret tags
    ∧ Node.result (Index.getMappedTags W (changedFiles ++ more) (inr mappings) verbose)
      = Node.Ret (tags ++ added).
Proof.
  destruct (files_fold_extends mappings more
              (foldl (View.file_step mappings) Js.Set_new changedFiles))
    as [added Hadded].
  exists (View.mappedTags changedFiles mappings), added.
  rewrite !getMappedTags_result. split; [done|]. f_equal.
  unfold View.mappedTags, Js.Array_from. by rewrite foldl_app.
Qed.

(** X5: with no changed file, or with a table in which no rule has any
    prefix (the empty table included), [getMappedTags] returns no tag. *)
Theorem X5_no_prefix_no_tag (W : Node.World) (changedFiles : list string)
    (mappings : Node.Table) (verbose : option bool) :
  changedFiles = [] ∨ (∀ tag paths, (tag, paths) ∈ mappings → paths = []) →
  Node.result (Index.getMappedTags W changedFiles (inr mappings) verbose) = Node.Ret [].
Proof.
  intros Hempty. rewrite getMappedTags_result. f_equal.
  destruct (View.mappedTags changedFiles mappings) as [|T tags] eqn:Htags; [done|].
  exfalso.
  assert (HT : T ∈ View.mappedTags changedFiles mappings)
    by (rewrite Htags; apply list_elem_of_here).
  apply files_fold_elem in HT as [HT|(file & paths & Hfile & Hrule & Hsome)].
  - by apply elem_of_nil in HT.
  - destruct Hempty as [->|Hnone]; [by apply elem_of_nil in Hfile|].
    rewrite (Hnone _ _ Hrule) in Hsome. discriminate.
Qed.

Lemma X5_no_prefix_no_tag_witness :
  Node.result (Index.getMappedTags Sample.changed ["src/auth/login.ts"]
                 (inr [("@auth", [])]) None) = Node.Ret [].
Proof.
  apply (X5_no_prefix_no_tag Sample.changed ["src/auth/login.ts"] [("@auth", [])] None).
  right. intros tag paths Hin. apply list_elem_of_singleton in Hin. congruence.
Defined.

(** X6: the empty prefix matches every path, so a rule that lists it has
    its tag returned as soon as one file changed. *)
Theorem X6_empty_prefix_catches_all (W : Node.World) (changedFiles : list string)
    (mappings : Node.Table) (verbose : option bool) (tag : string) (paths : list string) :
  changedFiles ≠ [] → (tag, paths) ∈ mappings → "" ∈ paths →
  ∃ tags,
    Node.result (Index.getMappedTags W changedFiles (inr mappings) verbose) = Node.Ret tags
    ∧ tag ∈ tags.
Proof.
  intros Hfiles Hrule Hpath. eexists. split; [apply getMappedTags_result|].
  destruct changedFiles as [|file files]; [done|].
  apply files_fold_elem. right. exists file, paths.
  split_and!; [apply list_elem_of_here | done |].
  apply some_true. by exists "".
Qed.

Lemma X6_empty_prefix_catches_all_witness :
  ∃ tags,
    Node.result (Index.getMappedTags Sample.changed ["README.md"]
                   (inr [("@docs", ["docs/"]); ("@smoke", [""])]) None) = Node.Ret tags
    ∧ "@smoke" ∈ tags.
Proof.
  apply (X6_empty_prefix_catches_all Sample.changed ["README.md"]
           [("@docs", ["docs/"]); ("@smoke", [""])] None "@smoke" [""]).
  - discriminate.
  - apply list_elem_of_further, list_elem_of_here.
  - apply list_elem_of_here.
Defined.

(* ===================================================================== *)
(** * More on the change detector *)
(* ===================================================================== *)

Section DetectorMore.
Import Node Index View Shape.

Lemma split_avoids (sep : ascii) (s : string) :
  avoids sep s = true → Js.split sep s = [s].
Proof.
  induction s as [|c s IH]; simpl; [done|].
  intros [Hc Hs]%andb_true_iff. rewrite (IH Hs).
  apply negb_true_iff, bool_decide_eq_false in Hc. by rewrite decide_False.
Qed.

Lemma split_join_avoiding (sep : ascii) (arr : list string) :
  arr ≠ [] → (∀ x, x ∈ arr → avoids sep x = true) →
  Js.split sep (Js.join (String sep "") arr) = arr.
Proof.
  intros Hne Havoid. rewrite split_join by done. clear Hne.
  induction arr as [|x arr IH]; [done|].
  rewrite bind_cons, split_avoids by (apply Havoid, list_elem_of_here).
  simpl. f_equal. apply IH. intros y Hy. by apply Havoid, list_elem_of_further.
Qed.

Lemma trimStart_clean (s rest : string) :
  starts_clean s = true → Js.trimStart (s +:+ rest) = s +:+ rest.
Proof.
  destruct s as [|c s]; [done|]. simpl. intros Hc.
  apply negb_true_iff in Hc. by rewrite Hc.
Qed.

Lemma trimEnd_clean (s : string) : ends_clean s = true → Js.trimEnd s = s.
Proof.
  induction s as [|c s IH]; [done|].
  destruct s as [|d s].
  - simpl. intros Hc. apply negb_true_iff in Hc. by rewrite Hc.
  - intros Hclean. change (ends_clean (String c (String d s))) with (ends_clean (String d s)) in Hclean.
    change (Js.trimEnd (String c (String d s)))
      with (match Js.trimEnd (String d s) with
            | EmptyString => if Js.isWhiteSpace c then "" else String c ""
            | t => String c t
            end).
    by rewrite (IH Hclean).
Qed.

Lemma trimEnd_app_kept (a b : string) :
  Js.trimEnd b ≠ "" → Js.trimEnd (a +:+ b) = a +:+ Js.trimEnd b.
Proof.
  intros Hb. induction a as [|c a IH]; [done|].
  simpl. rewrite IH. destruct (a +:+ Js.trimEnd b) eqn:Heq; [|done].
  destruct a; simpl in Heq; [done | discriminate].
Qed.

Lemma trimEnd_app_dropped (a b : string) :
  Js.trimEnd b = "" → Js.trimEnd (a +:+ b) = Js.trimEnd a.
Proof.
  intros Hb. induction a as [|c a IH]; [done|]. simpl. by rewrite IH.
Qed.

Lemma ends_clean_nonempty (s : string) : ends_clean s = true → s ≠ "".
Proof. by destruct s. Qed.

Lemma join_starts_clean (sep : string) (names : list string) (x : string) :
  starts_clean x = true → ∃ rest, Js.join sep (x :: names) = x +:+ rest.
Proof.
  intros _. destruct names as [|y names]; [exists ""|by eexists].
  simpl. induction x as [|c x IH]; simpl; [done | by rewrite <- IH].
Qed.

Lemma string_app_assoc (a b c : string) : (a +:+ b) +:+ c = a +:+ (b +:+ c).
Proof. induction a as [|x a IH]; simpl; [done | by rewrite IH]. Qed.

Lemma trimEnd_join_clean (sep : string) (names : list string) :
  names ≠ [] → (∀ x, x ∈ names → ends_clean x = true) →
  Js.trimEnd (Js.join sep names) = Js.join sep names.
Proof.
  intros Hne Hclean. induction names as [|x names IH]; [done|].
  destruct names as [|y names].
  - simpl. apply trimEnd_clean, Hclean, list_elem_of_here.
  - change (Js.join sep (x :: y :: names))
      with (x +:+ sep +:+ Js.join sep (y :: names)).
    assert (Htail : Js.trimEnd (Js.join sep (y :: names)) = Js.join sep (y :: names)).
    { apply IH; [done|]. intros z Hz. by apply Hclean, list_elem_of_further. }
    assert (Hnonempty : Js.join sep (y :: names) ≠ "").
    { pose proof (ends_clean_nonempty y
        (Hclean y (list_elem_of_further _ _ _ (list_elem_of_here _ _)))) as Hy.
      destruct y; [done|]. by destruct names. }
    rewrite <- string_app_assoc, trimEnd_app_kept by (by rewrite Htail).
    by rewrite Htail.
Qed.

(** What [getChangedFiles] prints and runs when it is not verbose. *)
Lemma getChangedFiles_silent_trace (W : World) (baseBranch : option string) :
  trace (getChangedFiles W baseBranch (Some false)) =
    child_execSync branch_command ::
      match execSync W branch_command with
      | inl _ => []
      | inr _ => [child_execSync (diff_command (default "main" baseBranch))]
      end.
Proof.
  unfold getChangedFiles. cbn [default from_option id when].
  rewrite trace_try_catch, trace_bind, trace_call_execSync.
  rewrite result_bind, result_call_execSync.
  destruct (execSync W branch_command) as [e|branch]; [done|].
  cbn [result ret snd]. rewrite !trace_bind, trace_call_execSync.
  rewrite !result_bind. cbn [result trace ret fst snd app].
  rewrite result_call_execSync.
  destruct (execSync W (diff_command _)) as [e|out]; [done|].
  by destruct (negb _).
Qed.

End DetectorMore.

(** X7: [getChangedFiles] returns the names the diff printed, in order: when
    both git commands succeed and the diff prints one tidy name per line
    (not empty, no line feed inside, no white space at either end), each
    line ended by a line feed, the result is exactly that list of names. *)
Theorem X7_detector_reads_names (W : Node.World) (baseBranch : option string)
    (verbose : option bool) (branch : string) (names : list string) :
  Node.execSync W Index.branch_command = inr branch →
  Node.execSync W (Index.diff_command (default "main" baseBranch))
    = inr (Js.join Cli.NL names +:+ Cli.NL) →
  (∀ name, name ∈ names → Shape.tidy name = true) →
  Node.result (Index.getChangedFiles W baseBranch verbose) = Node.Ret names.
Proof.
  intros Hbranch Hdiff Htidy. rewrite getChangedFiles_result. f_equal.
  unfold View.detected. rewrite Hbranch, Hdiff. unfold View.files_of_output.
  destruct names as [|name names]; [done|].
  assert (Hparts : ∀ x, x ∈ name :: names →
            Shape.avoids Js.LF x = true ∧ Shape.starts_clean x = true
            ∧ Shape.ends_clean x = true).
  { intros x Hx. specialize (Htidy x Hx). unfold Shape.tidy in Htidy.
    apply andb_true_iff in Htidy as [[? ?]%andb_true_iff ?]. done. }
  assert (Htrim : Js.trim (Js.join Cli.NL (name :: names) +:+ Cli.NL)
                  = Js.join Cli.NL (name :: names)).
  { unfold Js.trim.
    destruct (join_starts_clean Cli.NL names name) as [rest Hrest];
      [apply Hparts, list_elem_of_here|].
    rewrite Hrest, string_app_assoc, trimStart_clean
      by apply Hparts, list_elem_of_here.
    rewrite <- string_app_assoc, <- Hrest, trimEnd_app_dropped by done.
    apply trimEnd_join_clean; [done|]. intros x Hx. by apply Hparts. }
  rewrite Htrim. unfold Cli.NL. rewrite split_join_avoiding; [|done|].
  - generalize (name :: names), Hparts. clear.
    intros l Hl. induction l as [|x l IH]; [done|].
    rewrite filter_cons_True.
    + f_equal. apply IH. intros y Hy. by apply Hl, list_elem_of_further.
    + destruct (Hl x (list_elem_of_here _ _)) as (_ & Hx & _). by destruct x.
  - intros x Hx. by apply Hparts.
Qed.

Lemma X7_detector_reads_names_witness :
  Node.result (Index.getChangedFiles Scenario.mapped None None)
    = Node.Ret ["src/auth/login.ts"; "src/api/users.ts"].
Proof.
  apply (X7_detector_reads_names Scenario.mapped None None ("feature" +:+ Cli.NL)
           ["src/auth/login.ts"; "src/api/users.ts"]); [reflexivity | reflexivity |].
  intros name Hname.
  apply elem_of_cons in Hname as [->|Hname]; [reflexivity|].
  apply list_elem_of_singleton in Hname as ->. reflexivity.
Defined.

(** X8: unless [verbose] is true, [getChangedFiles] prints nothing; it runs
    the branch command, then the three-dot diff against the base branch
    ([main] by default), and does not run the diff when the branch command
    failed. *)
Theorem X8_detector_commands (W : Node.World) (baseBranch : option string)
    (verbose : option bool) :
  default false verbose = false →
  Node.trace (Index.getChangedFiles W baseBranch verbose) =
    Node.child_execSync "git rev-parse --abbrev-ref HEAD" ::
      match Node.execSync W "git rev-parse --abbrev-ref HEAD" with
      | inl _ => []
      | inr _ => [Node.child_execSync
                    ("git diff --name-only " +:+ default "main" baseBranch +:+ "...HEAD")]
      end.
Proof.
  intros Hquiet.
  assert (Heq : Index.getChangedFiles W baseBranch verbose
                = Index.getChangedFiles W baseBranch (Some false)).
  { destruct verbose as [[]|]; done. }
  rewrite Heq. apply getChangedFiles_silent_trace.
Qed.

Lemma X8_detector_commands_witness :
  Node.trace (Index.getChangedFiles Sample.killed (Some "develop") None)
    = [Node.child_execSync "git rev-parse --abbrev-ref HEAD"]
  ∧ Node.trace (Index.getChangedFiles Sample.unchanged (Some "develop") None)
    = [Node.child_execSync "git rev-parse --abbrev-ref HEAD";
       Node.child_execSync "git diff --name-only develop...HEAD"].
Proof.
  split.
  - apply (X8_detector_commands Sample.killed (Some "develop") None). reflexivity.
  - apply (X8_detector_commands Sample.unchanged (Some "develop") None). reflexivity.
Defined.

(* ===================================================================== *)
(** * More on the composer and the runner *)
(* ===================================================================== *)

Section ComposerMore.
Import Node Index Shape.

Lemma closing_inj (a b : string) : a +:+ ")" = b +:+ ")" → a = b.
Proof.
  intros Heq. apply (f_equal Filter.without_closing) in Heq.
  rewrite !without_closing_app in Heq. congruence.
Qed.

Lemma allTags_avoid (tags : list string) (options : option Options) :
  (∀ t, t ∈ tags → avoids "|" t = true) →
  ∀ t, t ∈ allTags tags options → avoids "|" t = true.
Proof.
  intros Htags t. rewrite allTags_unfold, elem_of_app.
  intros [Hin|Hin]; [by apply Htags|].
  destruct (_ && _); [|by apply elem_of_nil in Hin].
  by apply list_elem_of_singleton in Hin as ->.
Qed.

Lemma join_as_fold (sep x : string) (arr : list string) :
  Js.join sep (x :: arr) = x +:+ foldr (λ a acc, sep +:+ a +:+ acc) "" arr.
Proof.
  revert x. induction arr as [|y arr IH]; intros x.
  - simpl. induction x as [|c x IHx]; simpl; [done | by rewrite <- IHx].
  - change (Js.join sep (x :: y :: arr)) with (x +:+ sep +:+ Js.join sep (y :: arr)).
    by rewrite IH.
Qed.

End ComposerMore.

(** X9: on tags that contain no ["|"], the filter determines the tag list
    it was composed from: two calls that return the same expression had the
    same list after the baseline step. *)
Theorem X9_pattern_determines_tags (tags1 tags2 : list string)
    (options1 options2 : option Index.Options) :
  (∀ t, t ∈ tags1 ++ tags2 → Shape.avoids "|" t = true) →
  Index.computeGrepPattern tags1 options1 = Index.computeGrepPattern tags2 options2 →
  Index.allTags tags1 options1 = Index.allTags tags2 options2.
Proof.
  intros Havoid Hsame.
  assert (H1 : ∀ t, t ∈ Index.allTags tags1 options1 → Shape.avoids "|" t = true).
  { apply allTags_avoid. intros t Ht. apply Havoid, elem_of_app. by left. }
  assert (H2 : ∀ t, t ∈ Index.allTags tags2 options2 → Shape.avoids "|" t = true).
  { apply allTags_avoid. intros t Ht. apply Havoid, elem_of_app. by right. }
  destruct (decide (Index.allTags tags1 options1 = [])) as [Hnil1|Hne1];
    destruct (decide (Index.allTags tags2 options2 = [])) as [Hnil2|Hne2].
  - by rewrite Hnil1, Hnil2.
  - rewrite (computeGrepPattern_empty_list _ _ Hnil1),
      (computeGrepPattern_nonempty_list _ _ Hne2) in Hsame. discriminate.
  - rewrite (computeGrepPattern_empty_list _ _ Hnil2),
      (computeGrepPattern_nonempty_list _ _ Hne1) in Hsame. discriminate.
  - rewrite (computeGrepPattern_nonempty_list _ _ Hne1),
      (computeGrepPattern_nonempty_list _ _ Hne2) in Hsame.
    simpl in Hsame. injection Hsame as Hsame. apply closing_inj in Hsame.
    rewrite <- (split_join_avoiding "|" _ Hne1 H1),
            <- (split_join_avoiding "|" _ Hne2 H2).
    by rewrite Hsame.
Qed.

Lemma X9_pattern_determines_tags_witness :
  Index.allTags ["@auth"; "@baseline"] (Some {| Index.addBaseline := Some false |})
    = Index.allTags ["@auth"] None.
Proof.
  apply X9_pattern_determines_tags; [|reflexivity].
  intros t Ht. repeat (apply elem_of_cons in Ht as [->|Ht]; [reflexivity|]).
  by apply elem_of_nil in Ht.
Defined.

(** X10: when the tags already contain the baseline tag, [addBaseline] makes
    no difference: the result is the group of the input tags, unchanged. *)
Theorem X10_baseline_already_listed (tags : list string) (options : option Index.Options) :
  Index.BASELINE ∈ tags →
  Index.computeGrepPattern tags options = "(" +:+ Js.join "|" tags +:+ ")".
Proof.
  intros Hin.
  assert (Hall : Index.allTags tags options = tags).
  { unfold Index.allTags. apply includes_true in Hin. by rewrite Hin, andb_false_r. }
  rewrite computeGrepPattern_nonempty_list; rewrite Hall; [done|].
  intros ->. by apply elem_of_nil in Hin.
Qed.

Lemma X10_baseline_already_listed_witness :
  Index.computeGrepPattern ["@baseline"; "@ui"] (Some {| Index.addBaseline := Some false |})
    = "(@baseline|@ui)"
  ∧ Index.computeGrepPattern ["@baseline"; "@ui"] None = "(@baseline|@ui)".
Proof.
  split; apply (X10_baseline_already_listed ["@baseline"; "@ui"]);
    apply list_elem_of_here.
Defined.

(** X11: [runPlaywright] starts exactly one child process and prints
    nothing. Its command line is [npx playwright test -g "<pattern>"]
    followed by each additional argument, in order, after one space; the
    pattern and the arguments are copied as they are. *)
Theorem X11_runner_command_line (W : Node.World) (grepPattern : string)
    (additionalArgs : option (list string)) :
  Node.trace (Index.runPlaywright W grepPattern additionalArgs) =
    [Node.child_execSync
       ("npx playwright test -g " +:+ Js.dquote +:+ grepPattern +:+ Js.dquote
          +:+ foldr (λ arg rest, " " +:+ arg +:+ rest) "" (default [] additionalArgs))].
Proof.
  rewrite runPlaywright_trace. do 2 f_equal. unfold Index.playwright_command.
  set (args := default [] additionalArgs).
  change (Js.join " " (["npx"; "playwright"; "test"; "-g";
                        Js.dquote +:+ grepPattern +:+ Js.dquote] ++ args))
    with ("npx playwright test -g "
            +:+ Js.join " " ((Js.dquote +:+ grepPattern +:+ Js.dquote) :: args)).
  rewrite join_as_fold. f_equal.
  by rewrite !string_app_assoc.
Qed.

(* ===================================================================== *)
(** * More on the commands *)
(* ===================================================================== *)

Section CommandsMore.
Import Node Index View Cli.
Context (W : World) (config : Config) (playwrightArgs : list string).

Lemma runner_calls_logs {A} (f : A → string) (l : list A) :
  runner_calls ((λ x, console_log (f x)) <$> l) = [].
Proof. induction l as [|x l IH]; [done|]. simpl. apply IH. Qed.

Lemma runner_calls_getMappedTags (changedFiles : list string) (mappings : Table)
    (verbose : option bool) :
  runner_calls (trace (getMappedTags W changedFiles (inr mappings) verbose)) = [].
Proof.
  rewrite getMappedTags_trace. destruct (default false verbose); [|done].
  rewrite <- (runner_calls_logs
    (λ '(file, tag), "[mapper] " +:+ file +:+ " → " +:+ tag)
    (Shape.matches changedFiles mappings)).
  f_equal. apply list_fmap_ext. by intros _ [file tag] _.
Qed.

(** The loader ends with a table or with a thrown error, and starts no
    child process. *)
Lemma loadMappings_cases (mappingsFile : string) :
  runner_calls (trace (loadMappings W mappingsFile)) = []
  ∧ ((∃ table, result (loadMappings W mappingsFile) = Ret table)
     ∨ (∃ e, result (loadMappings W mappingsFile) = Throw e)).
Proof.
  destruct (existsSync W (path_resolve W (cwd W) mappingsFile)) eqn:Hpresent.
  - rewrite (loadMappings_present W _ Hpresent). split; [done|].
    destruct (require W _); simpl; eauto.
  - rewrite (loadMappings_missing W _ Hpresent). split; [done|]. right. by eexists.
Qed.

(** The filter a run ends up with once changes were detected. *)
Lemma runCommand_with_changes :
  env_MAPPER_DISABLE W ≠ Some "1" →
  detected W (baseBranch config) ≠ [] →
  ∃ pattern,
    match result (loadMappings W (mappingsFile config)) with
    | Ret table =>
        pattern = computeGrepPattern
                    (mappedTags (detected W (baseBranch config)) table)
                    (composer_options config)
    | Throw e =>
        pattern = ".*"
        ∧ console_error ("[mapper] Error: " +:+ message e)
            ∈ trace (runCommand W config playwrightArgs)
    | Exit _ => False
    end
    ∧ result (runCommand W config playwrightArgs)
        = result (runPlaywright W pattern (Some playwrightArgs))
    ∧ runner_calls (trace (runCommand W config playwrightArgs))
        = [playwright_command pattern playwrightArgs].
Proof.
  intros Henv Hdet.
  pose proof (getChangedFiles_result W (Some (baseBranch config)) (Some (verbose config)))
    as Hres. simpl in Hres.
  assert (Hlen : length (detected W (baseBranch config)) ≠ 0).
  { by destruct (detected W (baseBranch config)). }
  pose proof (quiet_preamble config) as [Hpre _].
  pose proof (quiet_getChangedFiles W (Some (baseBranch config)) (Some (verbose config)))
    as [Hgit _].
  destruct (loadMappings_cases (mappingsFile config)) as [Hload [[table Hok]|[e Hfail]]].
  - exists (computeGrepPattern (mappedTags (detected W (baseBranch config)) table)
              (composer_options config)).
    rewrite Hok. split; [done|].
    unfold runCommand. rewrite decide_False by done. split.
    + rewrite result_bind, result_preamble, result_bind, Hres.
      rewrite decide_False by done.
      rewrite result_try_catch, result_bind, Hok, result_bind, getMappedTags_result.
      rewrite result_bind, result_when by (by rewrite !result_bind).
      by rewrite runPlaywright_result.
    + rewrite trace_bind, result_preamble, trace_bind, Hres.
      rewrite decide_False by done.
      rewrite trace_try_catch, trace_bind, Hok, trace_bind, getMappedTags_result.
      rewrite trace_bind, result_when by (by rewrite !result_bind).
      rewrite result_bind, Hok, result_bind, getMappedTags_result.
      rewrite result_bind, result_when by (by rewrite !result_bind).
      rewrite runPlaywright_result, runPlaywright_trace.
      rewrite !runner_calls_app, Hpre, Hgit, Hload, runner_calls_getMappedTags.
      rewrite app_nil_r. cbn [app].
      assert (Hlogs : ∀ m, quiet (trace m) → runner_calls (trace (when (verbose config) m)) = []).
      { intros m Hm. by apply quiet_when. }
      rewrite Hlogs; [done|].
      repeat (apply quiet_bind; [apply quiet_log | intros _]). apply quiet_log.
  - exists ".*". rewrite Hfail.
    assert (Htrace : ∃ pre, runner_calls pre = []
              ∧ trace (runCommand W config playwrightArgs)
                = pre ++ [console_error ("[mapper] Error: " +:+ message e);
                          console_error "[mapper] Falling back to running all tests";
                          child_execSync (playwright_command ".*" playwrightArgs)]).
    { unfold runCommand. rewrite decide_False by done.
      rewrite trace_bind, result_preamble, trace_bind, Hres.
      rewrite decide_False by done.
      rewrite trace_try_catch, trace_bind, result_bind, Hfail.
      rewrite !trace_bind. cbn [result trace fst snd console.error emit].
      rewrite runPlaywright_trace, app_nil_r. cbn [app].
      eexists. split; [|by rewrite !app_assoc].
      by rewrite !runner_calls_app, Hpre, Hgit, Hload. }
    destruct Htrace as (pre & Hquiet & Htrace). rewrite Htrace. split_and!.
    + done.
    + apply elem_of_app. right. apply list_elem_of_here.
    + unfold runCommand. rewrite decide_False by done.
      rewrite result_bind, result_preamble, result_bind, Hres.
      rewrite decide_False by done.
      rewrite result_try_catch, result_bind, Hfail.
      by rewrite !result_bind.
    + by rewrite runner_calls_app, Hquiet.
Qed.

Lemma runCommand_disabled :
  env_MAPPER_DISABLE W = Some "1" →
  runCommand W config playwrightArgs =
    ([console_log "[mapper] MAPPER_DISABLE=1, running all tests";
      child_execSync (playwright_command ".*" playwrightArgs)],
     result (runPlaywright W ".*" (Some playwrightArgs))).
Proof.
  intros Henv. unfold runCommand. rewrite decide_True by done.
  pose proof (runPlaywright_trace W ".*" (Some playwrightArgs)) as Htrace.
  destruct (runPlaywright W ".*" (Some playwrightArgs)) as [t o].
  simpl in Htrace. by subst t.
Qed.

(** The three ways a listing ends. *)
Lemma listCommand_cases :
  ∃ pre, runner_calls pre = [] ∧
    if decide (detected W (baseBranch config) = []) then
      listCommand W config =
        (pre ++ [console_log (NL +:+ "[mapper] No changed files detected");
                 console_log "[mapper] Would run: @baseline only"], Ret tt)
      ∧ mapping_accesses pre = []
    else
      match result (loadMappings W (mappingsFile config)) with
      | Ret table =>
          let tags := mappedTags (detected W (baseBranch config)) table in
          let grepPattern := computeGrepPattern tags (composer_options config) in
          listCommand W config =
            (pre ++ [console_log (NL +:+ "[mapper] Mapped test tags: "
                                    +:+ Js.or_else (Js.join ", " tags) "none");
                     console_log ("[mapper] Grep pattern: " +:+ grepPattern);
                     console_log ("[mapper] Would run: npx playwright test -g "
                                    +:+ Js.dquote +:+ grepPattern +:+ Js.dquote)],
             Ret tt)
      | Throw e =>
          listCommand W config =
            (pre ++ [console_error ("[mapper] Error: " +:+ message e)], Exit 1%Z)
      | Exit _ => False
      end.
Proof.
  pose proof (getChangedFiles_result W (Some (baseBranch config)) (Some true)) as Hres.
  simpl in Hres.
  pose proof (quiet_print_configuration config) as [Hcfg Hcfg'].
  pose proof (quiet_getChangedFiles W (Some (baseBranch config)) (Some true))
    as [Hgit Hgit'].
  assert (Hpair : ∀ m : M unit, m = (trace m, result m)) by (by intros []).
  destruct (decide (detected W (baseBranch config) = [])) as [Hnone|Hsome].
  - exists (trace (print_configuration config)
            ++ trace (getChangedFiles W (Some (baseBranch config)) (Some true))).
    split; [by rewrite runner_calls_app, Hcfg, Hgit|].
    split; [|by rewrite mapping_accesses_app, Hcfg', Hgit'].
    rewrite (Hpair (listCommand W config)). unfold listCommand.
    rewrite trace_bind, result_print_configuration, trace_bind, Hres, Hnone.
    rewrite result_bind, result_print_configuration, result_bind, Hres, Hnone.
    rewrite decide_True by done. by rewrite <- !app_assoc.
  - assert (Hlen : length (detected W (baseBranch config)) ≠ 0).
    { by destruct (detected W (baseBranch config)). }
    destruct (loadMappings_cases (mappingsFile config)) as [Hload [[table Hok]|[e Hfail]]].
    + rewrite Hok.
      exists (trace (print_configuration config)
              ++ trace (getChangedFiles W (Some (baseBranch config)) (Some true))
              ++ [console_log ""]
              ++ trace (loadMappings W (mappingsFile config))
              ++ trace (getMappedTags W (detected W (baseBranch config)) (inr table)
                          (Some true))).
      split.
      { by rewrite !runner_calls_app, Hcfg, Hgit, Hload, runner_calls_getMappedTags. }
      cbn zeta. rewrite (Hpair (listCommand W config)). unfold listCommand.
      rewrite trace_bind, result_print_configuration, trace_bind, Hres.
      rewrite result_bind, result_print_configuration, result_bind, Hres.
      rewrite decide_False by done.
      rewrite trace_bind, result_bind. cbn [result trace console.log emit fst snd].
      rewrite trace_try_catch, result_try_catch.
      rewrite trace_bind, !result_bind, Hok, trace_bind, !result_bind.
      rewrite getMappedTags_result. cbn [result trace console.log emit fst snd bind].
      cbn [Js.join app]. f_equal. rewrite app_nil_r.
      by rewrite <- ?app_assoc, <- ?app_comm_cons, <- ?app_assoc.
    + rewrite Hfail.
      exists (trace (print_configuration config)
              ++ trace (getChangedFiles W (Some (baseBranch config)) (Some true))
              ++ [console_log ""]
              ++ trace (loadMappings W (mappingsFile config))).
      split; [by rewrite !runner_calls_app, Hcfg, Hgit, Hload|].
      rewrite (Hpair (listCommand W config)). unfold listCommand.
      rewrite trace_bind, result_print_configuration, trace_bind, Hres.
      rewrite result_bind, result_print_configuration, result_bind, Hres.
      rewrite decide_False by done.
      rewrite trace_bind, result_bind. cbn [result trace console.log emit fst snd].
      rewrite trace_try_catch, result_try_catch.
      rewrite trace_bind, !result_bind, Hfail.
      cbn [result trace console.error emit fst snd bind process_exit].
      cbn [Js.join app]. f_equal. rewrite ?app_nil_r.
      by rewrite <- ?app_assoc, <- ?app_comm_cons, <- ?app_assoc.
Qed.

End CommandsMore.

Lemma runCommand_total (W : Node.World) (config : Cli.Config)
    (playwrightArgs : list string) :
  ∃ pattern code,
    Node.result (Cli.runCommand W config playwrightArgs) = Node.Ret code
    ∧ Node.result (Index.runPlaywright W pattern (Some playwrightArgs)) = Node.Ret code
    ∧ View.runner_calls (Node.trace (Cli.runCommand W config playwrightArgs))
        = [Index.playwright_command pattern playwrightArgs]
    ∧ (pattern = ".*" ∨ pattern = "@baseline"
       ∨ ∃ tags, pattern = Index.computeGrepPattern tags (Cli.composer_options config)).
Proof.
  assert (Hcode : ∀ pattern, ∃ code,
            Node.result (Index.runPlaywright W pattern (Some playwrightArgs))
              = Node.Ret code).
  { intros pattern. rewrite runPlaywright_result. by eexists. }
  destruct (decide (Node.env_MAPPER_DISABLE W = Some "1")) as [Hoff|Hon].
  - destruct (Hcode ".*") as [code Hrun]. exists ".*", code.
    rewrite (runCommand_disabled W config playwrightArgs Hoff).
    split_and!; [done | done | done | by left].
  - destruct (decide (View.detected W (Cli.baseBranch config) = [])) as [Hnone|Hsome].
    + destruct (runCommand_no_changes W config playwrightArgs Hon Hnone)
        as (Hres & pre & [Hpre _] & Htrace).
      destruct (Hcode "@baseline") as [code Hrun]. exists "@baseline", code.
      rewrite Hres, Htrace, runner_calls_app, Hpre.
      split_and!; [done | done | done | right; by left].
    + destruct (runCommand_with_changes W config playwrightArgs Hon Hsome)
        as (pattern & Hpattern & Hres & Htrace).
      destruct (Hcode pattern) as [code Hrun]. exists pattern, code.
      rewrite Hres, Htrace. split_and!; [done..|].
      destruct (Node.result (Index.loadMappings W _)) as [table|e|c]; [|by left; tauto|done].
      right. right. by eexists.
Qed.

(** X12: whatever the world and the configuration, [runCommand] starts the
    test runner exactly once and returns its status; it never throws and
    never ends the process itself. The filter is [.*], [@baseline] or an
    expression composed by [computeGrepPattern]. *)
Theorem X12_run_calls_runner_once (W : Node.World) (config : Cli.Config)
    (playwrightArgs : list string) :
  ∃ pattern code,
    Node.result (Cli.runCommand W config playwrightArgs) = Node.Ret code
    ∧ Node.result (Index.runPlaywright W pattern (Some playwrightArgs)) = Node.Ret code
    ∧ View.runner_calls (Node.trace (Cli.runCommand W config playwrightArgs))
        = [Index.playwright_command pattern playwrightArgs]
    ∧ (pattern = ".*" ∨ pattern = "@baseline"
       ∨ ∃ tags, pattern = Index.computeGrepPattern tags (Cli.composer_options config)).
Proof. apply runCommand_total. Qed.

(** X13: in a run that detects changes and loads a table, the runner is
    called once, on the expression composed (with the configured
    [addBaseline]) from the tags that [getMappedTags] returns for the
    detected files and that table; the run returns the runner's status. *)
Theorem X13_run_maps_changes (W : Node.World) (config : Cli.Config)
    (playwrightArgs changed : list string) (table : Node.Table) (tags : list string) :
  Node.env_MAPPER_DISABLE W ≠ Some "1" →
  Node.result (Index.getChangedFiles W (Some (Cli.baseBranch config))
                 (Some (Cli.verbose config))) = Node.Ret changed →
  changed ≠ [] →
  Node.result (Index.loadMappings W (Cli.mappingsFile config)) = Node.Ret table →
  Node.result (Index.getMappedTags W changed (inr table) (Some (Cli.verbose config)))
    = Node.Ret tags →
  let pattern :=
    Index.computeGrepPattern tags
      (Some {| Index.addBaseline := Some (Cli.addBaseline config) |}) in
  View.runner_calls (Node.trace (Cli.runCommand W config playwrightArgs))
    = [Index.playwright_command pattern playwrightArgs]
  ∧ Node.result (Cli.runCommand W config playwrightArgs)
    = Node.result (Index.runPlaywright W pattern (Some playwrightArgs)).
Proof.
  intros Hon Hchanged Hsome Hload Htags pattern.
  rewrite getChangedFiles_result in Hchanged. simpl in Hchanged.
  injection Hchanged as Hchanged. subst changed.
  rewrite getMappedTags_result in Htags. injection Htags as Htags.
  destruct (runCommand_with_changes W config playwrightArgs Hon Hsome)
    as (p & Hp & Hres & Htrace).
  rewrite Hload, Htags in Hp. subst p. done.
Qed.

Lemma X13_run_maps_changes_witness :
  View.runner_calls (Node.trace (Cli.runCommand Scenario.mapped Cli.DEFAULT_CONFIG ["--headed"]))
    = ["npx playwright test -g " +:+ Js.dquote +:+ "(@auth|@api|@baseline)" +:+ Js.dquote
         +:+ " --headed"]
  ∧ Node.result (Cli.runCommand Scenario.mapped Cli.DEFAULT_CONFIG ["--headed"])
    = Node.Ret 2%Z.
Proof.
  apply (X13_run_maps_changes Scenario.mapped Cli.DEFAULT_CONFIG ["--headed"]
           ["src/auth/login.ts"; "src/api/users.ts"] Sample.table ["@auth"; "@api"]);
    [discriminate | reflexivity | discriminate | reflexivity | reflexivity].
Defined.

(** X14: with [MAPPER_DISABLE=1] in the environment, a run prints one line
    and calls the runner on [.*]: no git command is run and no mappings file
    is looked up. *)
Theorem X14_run_disabled (W : Node.World) (config : Cli.Config)
    (playwrightArgs : list string) :
  Node.env_MAPPER_DISABLE W = Some "1" →
  Node.trace (Cli.runCommand W config playwrightArgs)
    = [Node.console_log "[mapper] MAPPER_DISABLE=1, running all tests";
       Node.child_execSync (Index.playwright_command ".*" playwrightArgs)]
  ∧ Node.result (Cli.runCommand W config playwrightArgs)
    = Node.result (Index.runPlaywright W ".*" (Some playwrightArgs)).
Proof. intros Hoff. by rewrite (runCommand_disabled W config playwrightArgs Hoff). Qed.

Lemma X14_run_disabled_witness :
  Node.trace (Cli.runCommand Scenario.disabled Cli.DEFAULT_CONFIG [])
    = [Node.console_log "[mapper] MAPPER_DISABLE=1, running all tests";
       Node.child_execSync (Index.playwright_command ".*" [])].
Proof. apply (X14_run_disabled Scenario.disabled Cli.DEFAULT_CONFIG []). reflexivity. Defined.

(** X15: in a run that detects changes, any error thrown by the loader (a
    missing file, a module that fails to load) is reported on the error
    stream and the runner is called once, on [.*]. *)
Theorem X15_run_falls_back (W : Node.World) (config : Cli.Config)
    (playwrightArgs : list string) (e : Node.JsError) :
  Node.env_MAPPER_DISABLE W ≠ Some "1" →
  Node.result (Index.getChangedFiles W (Some (Cli.baseBranch config))
                 (Some (Cli.verbose config))) ≠ Node.Ret [] →
  Node.result (Index.loadMappings W (Cli.mappingsFile config)) = Node.Throw e →
  View.runner_calls (Node.trace (Cli.runCommand W config playwrightArgs))
    = [Index.playwright_command ".*" playwrightArgs]
  ∧ Node.result (Cli.runCommand W config playwrightArgs)
    = Node.result (Index.runPlaywright W ".*" (Some playwrightArgs))
  ∧ Node.console_error ("[mapper] Error: " +:+ Node.message e)
      ∈ Node.trace (Cli.runCommand W config playwrightArgs).
Proof.
  intros Hon Hchanged Hload.
  rewrite getChangedFiles_result in Hchanged. simpl in Hchanged.
  destruct (runCommand_with_changes W config playwrightArgs Hon)
    as (p & Hp & Hres & Htrace); [congruence|].
  rewrite Hload in Hp. destruct Hp as [-> Hreport]. done.
Qed.

Lemma X15_run_falls_back_witness :
  View.runner_calls (Node.trace (Cli.runCommand Scenario.broken Cli.DEFAULT_CONFIG []))
    = [Index.playwright_command ".*" []]
  ∧ Node.result (Cli.runCommand Scenario.broken Cli.DEFAULT_CONFIG [])
    = Node.result (Index.runPlaywright Scenario.broken ".*" (Some []))
  ∧ Node.console_error "[mapper] Error: Unexpected token"
      ∈ Node.trace (Cli.runCommand Scenario.broken Cli.DEFAULT_CONFIG []).
Proof.
  apply (X15_run_falls_back Scenario.broken Cli.DEFAULT_CONFIG []
           (Node.Error "Unexpected token"));
    [discriminate | vm_compute; discriminate | reflexivity].
Defined.

Lemma listCommand_total (W : Node.World) (config : Cli.Config) :
  View.runner_calls (Node.trace (Cli.listCommand W config)) = []
  ∧ (Node.result (Cli.listCommand W config) = Node.Ret tt
     ∨ Node.result (Cli.listCommand W config) = Node.Exit 1%Z)
  ∧ (Node.result (Cli.listCommand W config) = Node.Exit 1%Z ↔
       Node.result (Index.getChangedFiles W (Some (Cli.baseBranch config)) (Some true))
         ≠ Node.Ret []
       ∧ ∃ e, Node.result (Index.loadMappings W (Cli.mappingsFile config)) = Node.Throw e).
Proof.
  rewrite getChangedFiles_result. simpl.
  destruct (listCommand_cases W config) as (pre & Hpre & Hcases).
  destruct (decide (View.detected W (Cli.baseBranch config) = [])) as [Hnone|Hsome].
  - destruct Hcases as [-> _]. simpl. rewrite runner_calls_app, Hpre.
    split_and!; [done | by left |].
    split; [done|]. intros [Hne _]. by rewrite Hnone in Hne.
  - destruct (Node.result (Index.loadMappings W _)) as [table|e|c] eqn:Hload;
      [| |done]; cbn zeta in Hcases; rewrite Hcases; simpl;
      rewrite runner_calls_app, Hpre.
    + split_and!; [done | by left |].
      split; [done|]. by intros [_ [e He]].
    + split_and!; [done | by right |].
      split; [|done]. intros _. split; [congruence | by eexists].
Qed.




(* ===================================================================== *)
(** * The command line *)
(* ===================================================================== *)

Section ParseArgs.
Import Argv Shape.

(** The loop reads one or two arguments at a time, so its properties are
    proved for all argument lists up to a given length. *)
Ltac split_rest rest :=
  try match goal with
      | |- context [match rest with [] => _ | _ :: _ => _ end] =>
          destruct rest as [|value rest']
      end.



Lemma recognised_false (arg : string) :
  recognised arg = false →
  ¬ (arg = "--base-branch" ∨ arg = "-b") ∧ ¬ (arg = "--mappings-file" ∨ arg = "-m")
  ∧ ¬ (arg = "--verbose" ∨ arg = "-v") ∧ arg ≠ "--no-baseline"
  ∧ ¬ (arg = "--help" ∨ arg = "-h").
Proof.
  unfold recognised. intros Hrec%bool_decide_eq_false.
  split_and!; intros H; apply Hrec; repeat destruct H as [H|H]; subst;
    repeat (first [apply list_elem_of_here | apply list_elem_of_further]).
Qed.

Lemma recognised_intro (arg : string) :
  ¬ (arg = "--base-branch" ∨ arg = "-b") → ¬ (arg = "--mappings-file" ∨ arg = "-m") →
  ¬ (arg = "--verbose" ∨ arg = "-v") → arg ≠ "--no-baseline" →
  ¬ (arg = "--help" ∨ arg = "-h") → recognised arg = false.
Proof.
  intros H1 H2 H3 H4 H5. unfold recognised. apply bool_decide_eq_false. intros Hin.
  repeat (apply elem_of_cons in Hin as [->|Hin]; [tauto|]).
  by apply elem_of_nil in Hin.
Qed.

Lemma parse_loop_passthrough (n : nat) :
  ∀ args first parsed, length args ≤ n →
    ∃ extra,
      playwrightArgs (parse_loop first args parsed) = playwrightArgs parsed ++ extra
      ∧ sublist extra args
      ∧ ∀ arg, arg ∈ extra → recognised arg = false.
Proof.
  assert (Hnone : ∀ (l args : list string), ∃ extra : list string,
            l = l ++ extra ∧ sublist extra args
            ∧ ∀ arg, arg ∈ extra → recognised arg = false).
  { intros l args. exists []. rewrite app_nil_r.
    split_and!; [done | apply sublist_nil_l | by intros ? ?%elem_of_nil]. }
  induction n as [|n IH]; intros [|arg rest] first parsed Hlen; simpl in Hlen;
    try lia; try apply Hnone.
  cbn [parse_loop]. destruct (negb (Js.startsWith arg "-") && first).
  { destruct (IH rest false
                {| command := arg; config := config parsed;
                   playwrightArgs := playwrightArgs parsed |} ltac:(lia))
      as (extra & Hextra & Hsub & Hrec).
    exists extra. split_and!; [done | by apply sublist_cons | done]. }
  repeat case_bool_decide; split_rest rest; simpl in Hlen;
    try apply Hnone.
  all: match goal with
       | |- context [parse_loop false ?l ?p] =>
           destruct (IH l false p ltac:(simpl; lia)) as (extra & Hextra & Hsub & Hrec);
           rewrite Hextra; cbn [playwrightArgs]
       end.
  all: try (exists extra; split_and!;
            [done
            | first [by apply sublist_cons | by do 2 apply sublist_cons]
            | done]).
  exists (arg :: extra). split_and!.
  - by rewrite <- app_assoc.
  - by apply sublist_skip.
  - intros a [->|Ha]%elem_of_cons; [by apply recognised_intro | by apply Hrec].
Qed.

Lemma parse_loop_switches (n : nat) :
  ∀ args first parsed, length args ≤ n →
    (addBaseline (config (parse_loop first args parsed)) = true →
       addBaseline (config parsed) = true)
    ∧ (verbose (config parsed) = true →
       verbose (config (parse_loop first args parsed)) = true).
Proof.
  induction n as [|n IH]; intros [|arg rest] first parsed Hlen; simpl in Hlen;
    try lia; try done.
  cbn [parse_loop]. destruct (negb (Js.startsWith arg "-") && first).
  { apply (IH rest false
             {| command := arg; config := config parsed;
                playwrightArgs := playwrightArgs parsed |}). lia. }
  repeat case_bool_decide; split_rest rest; simpl in Hlen;
    try done.
  all: match goal with
       | |- context [parse_loop false ?l ?p] =>
           destruct (IH l false p ltac:(simpl; lia)) as [Hbase Hverb];
           cbn [config addBaseline verbose] in Hbase, Hverb
       end.
  all: split; [intros Hafter; by specialize (Hbase Hafter)
              | intros Hbefore; by apply Hverb].
Qed.

Lemma parse_loop_plain (args : list string) (parsed : Parsed) :
  (∀ arg, arg ∈ args → recognised arg = false) →
  parse_loop false args parsed =
    {| command := command parsed; config := config parsed;
       playwrightArgs := playwrightArgs parsed ++ args |}.
Proof.
  revert parsed. induction args as [|arg rest IH]; intros parsed Hplain.
  - rewrite app_nil_r. by destruct parsed.
  - destruct (recognised_false arg (Hplain arg (list_elem_of_here _ _)))
      as (H1 & H2 & H3 & H4 & H5).
    cbn [parse_loop andb negb]. rewrite andb_false_r.
    rewrite !bool_decide_eq_false_2 by done.
    rewrite IH by (intros a Ha; by apply Hplain, list_elem_of_further).
    cbn [command config playwrightArgs]. by rewrite <- app_assoc.
Qed.

(** A setting is [undefined] after the loop only if it was before, or if
    the last argument is an option that reads a value. *)
Lemma parse_loop_undefined (n : nat) :
  ∀ args first parsed, length args ≤ n →
    baseBranch (config (parse_loop first args parsed)) = None
    ∨ mappingsFile (config (parse_loop first args parsed)) = None →
    baseBranch (config parsed) = None ∨ mappingsFile (config parsed) = None
    ∨ ∃ front flag, args = front ++ [flag] ∧ takes_value flag = true.
Proof.
  assert (Hlast : ∀ (arg : string) (rest : list string),
            (∃ front flag, rest = front ++ [flag] ∧ takes_value flag = true) →
            ∃ front flag, arg :: rest = front ++ [flag] ∧ takes_value flag = true).
  { intros arg rest (front & flag & -> & Hflag). by exists (arg :: front), flag. }
  induction n as [|n IH]; intros [|arg rest] first parsed Hlen; simpl in Hlen;
    try lia; try (simpl; tauto).
  cbn [parse_loop]. destruct (negb (Js.startsWith arg "-") && first).
  { intros Hnone.
    destruct (IH rest false _ ltac:(lia) Hnone) as [?|[?|?]]; auto. }
  repeat case_bool_decide; split_rest rest; simpl in Hlen.
  all: try (intros _; right; right; exists [], arg; split; [done|];
            unfold takes_value; apply bool_decide_eq_true;
            match goal with
            | H : _ ∨ _ |- _ =>
                destruct H as [->| ->];
                repeat (first [apply list_elem_of_here | apply list_elem_of_further])
            end).
  all: intros Hnone;
    match goal with
    | Hnone : context [parse_loop false ?l ?p] |- _ =>
        destruct (IH l false p ltac:(simpl; lia) Hnone) as [Hb|[Hm|Hend]];
        cbn [config baseBranch mappingsFile] in *
    end;
    try discriminate; auto.
  all: right; right; by repeat apply Hlast.
Qed.

End ParseArgs.

Section ConfigFile.
Import Node Argv.
Context (W : World) (readJSON : string → JsError + ConfigFile).

Lemma loadConfig_run :
  loadConfig W readJSON =
    let configPath := path_resolve W (cwd W) ".mapperrc" in
    if existsSync W configPath then
      match readJSON configPath with
      | inr file => ([fs_existsSync configPath], Ret (spread Cli.DEFAULT_CONFIG file))
      | inl _ => ([fs_existsSync configPath;
                   console_warn "[mapper] Error loading .mapperrc, using defaults"],
                  Ret Cli.DEFAULT_CONFIG)
      end
    else ([fs_existsSync configPath], Ret Cli.DEFAULT_CONFIG).
Proof.
  unfold loadConfig, call_existsSync. simpl.
  destruct (existsSync W _); [|done]. by destruct (readJSON _).
Qed.

Lemma loadConfig_returns : ∃ loaded, result (loadConfig W readJSON) = Ret loaded.
Proof.
  rewrite loadConfig_run. simpl.
  destruct (existsSync W _); [|by eexists]. destruct (readJSON _); by eexists.
Qed.

Lemma parseArgs_result (args : list string) (loaded : Cli.Config) :
  result (loadConfig W readJSON) = Ret loaded →
  result (parseArgs W readJSON args)
    = Ret (parse_loop true args
             {| command := "run"; config := of_config loaded; playwrightArgs := [] |}).
Proof. intros Hloaded. unfold parseArgs. by rewrite result_bind, Hloaded. Qed.

End ConfigFile.

(** X18: the arguments [parseArgs] hands to Playwright are arguments of the
    command line, in their order, and none of them is an option the mapper
    recognises; [parseArgs] itself never throws. *)
Theorem X18_passthrough_in_order (W : Node.World)
    (readJSON : string → Node.JsError + Argv.ConfigFile) (args : list string) :
  ∃ parsed,
    Node.result (Argv.parseArgs W readJSON args) = Node.Ret parsed
    ∧ sublist (Argv.playwrightArgs parsed) args
    ∧ ∀ arg, arg ∈ Argv.playwrightArgs parsed → Shape.recognised arg = false.
Proof.
  destruct (loadConfig_returns W readJSON) as [loaded Hloaded].
  eexists. split; [by apply parseArgs_result|].
  destruct (parse_loop_passthrough (length args) args true
              {| Argv.command := "run"; Argv.config := Argv.of_config loaded;
                 Argv.playwrightArgs := [] |} (le_n _))
    as (extra & -> & Hsub & Hrec). done.
Qed.


(** X20: options only switch the baseline off and the verbosity on: if the
    baseline is on after [parseArgs] it was on in the loaded configuration,
    and a verbosity that the configuration switched on stays on. *)
Theorem X20_switches_one_way (W : Node.World)
    (readJSON : string → Node.JsError + Argv.ConfigFile) (args : list string) :
  ∃ loaded parsed,
    Node.result (Argv.loadConfig W readJSON) = Node.Ret loaded
    ∧ Node.result (Argv.parseArgs W readJSON args) = Node.Ret parsed
    ∧ (Argv.addBaseline (Argv.config parsed) = true → Cli.addBaseline loaded = true)
    ∧ (Cli.verbose loaded = true → Argv.verbose (Argv.config parsed) = true).
Proof.
  destruct (loadConfig_returns W readJSON) as [loaded Hloaded].
  exists loaded. eexists. split; [done|]. split; [by apply parseArgs_result|].
  by apply (parse_loop_switches (length args)).
Qed.

Lemma X20_switches_one_way_witness :
  ∃ parsed,
    Node.result (Argv.parseArgs Scenario.disabled (λ _, inr Scenario.rc)
                   ["list"; "--no-baseline"]) = Node.Ret parsed
    ∧ Argv.verbose (Argv.config parsed) = true.
Proof.
  destruct (X20_switches_one_way Scenario.disabled (λ _, inr Scenario.rc)
              ["list"; "--no-baseline"])
    as (loaded & parsed & Hloaded & Hparsed & _ & Hverbose).
  exists parsed. split; [exact Hparsed|].
  apply Hverbose. vm_compute in Hloaded. by injection Hloaded as <-.
Defined.

(** X21: when no argument is an option the mapper recognises, [parseArgs]
    leaves the loaded configuration untouched and hands every argument to
    Playwright, the separator [--] included; only a first argument that does
    not start with a dash is taken out, as the command. *)
Theorem X21_plain_arguments (W : Node.World)
    (readJSON : string → Node.JsError + Argv.ConfigFile) (args : list string) :
  (∀ arg, arg ∈ args → Shape.recognised arg = false) →
  ∃ loaded,
    Node.result (Argv.loadConfig W readJSON) = Node.Ret loaded
    ∧ Node.result (Argv.parseArgs W readJSON args) =
        Node.Ret
          match args with
          | command :: rest =>
              if Js.startsWith command "-"
              then {| Argv.command := "run"; Argv.config := Argv.of_config loaded;
                      Argv.playwrightArgs := args |}
              else {| Argv.command := command; Argv.config := Argv.of_config loaded;
                      Argv.playwrightArgs := rest |}
          | [] => {| Argv.command := "run"; Argv.config := Argv.of_config loaded;
                     Argv.playwrightArgs := [] |}
          end.
Proof.
  intros Hplain. destruct (loadConfig_returns W readJSON) as [loaded Hloaded].
  exists loaded. split; [done|]. rewrite (parseArgs_result W readJSON args loaded Hloaded).
  f_equal. destruct args as [|arg rest]; [done|].
  set (parsed := {| Argv.command := "run"; Argv.config := Argv.of_config loaded;
                    Argv.playwrightArgs := [] |}).
  destruct (Js.startsWith arg "-") eqn:Hdash.
  - assert (Hsame : Argv.parse_loop true (arg :: rest) parsed
                    = Argv.parse_loop false (arg :: rest) parsed).
    { cbn [Argv.parse_loop]. by rewrite Hdash. }
    by rewrite Hsame, parse_loop_plain.
  - cbn [Argv.parse_loop]. rewrite Hdash. cbn [negb andb].
    rewrite parse_loop_plain; [done|].
    intros a Ha. by apply Hplain, list_elem_of_further.
Qed.

Lemma X21_plain_arguments_witness :
  ∃ loaded,
    Node.result (Argv.loadConfig Sample.changed (λ _, inr Scenario.rc)) = Node.Ret loaded
    ∧ Node.result (Argv.parseArgs Sample.changed (λ _, inr Scenario.rc)
                     ["--"; "--headed"; "--project=chromium"]) =
        Node.Ret {| Argv.command := "run"; Argv.config := Argv.of_config loaded;
                    Argv.playwrightArgs := ["--"; "--headed"; "--project=chromium"] |}.
Proof.
  apply (X21_plain_arguments Sample.changed (λ _, inr Scenario.rc)
           ["--"; "--headed"; "--project=chromium"]).
  intros arg Harg.
  repeat (apply elem_of_cons in Harg as [->|Harg]; [reflexivity|]).
  by apply elem_of_nil in Harg.
Defined.

(** X22: after [parseArgs] the base branch and the mappings file are
    defined, unless the last argument is an option that reads a value
    ([-b], [--base-branch], [-m], [--mappings-file]) and finds none. *)
Theorem X22_settings_stay_defined (W : Node.World)
    (readJSON : string → Node.JsError + Argv.ConfigFile) (args : list string) :
  (∀ front flag, args = front ++ [flag] → Shape.takes_value flag = false) →
  ∃ parsed,
    Node.result (Argv.parseArgs W readJSON args) = Node.Ret parsed
    ∧ is_Some (Argv.baseBranch (Argv.config parsed))
    ∧ is_Some (Argv.mappingsFile (Argv.config parsed)).
Proof.
  intros Hlast. destruct (loadConfig_returns W readJSON) as [loaded Hloaded].
  eexists. split; [by apply parseArgs_result|].
  pose proof (parse_loop_undefined (length args) args true
                {| Argv.command := "run"; Argv.config := Argv.of_config loaded;
                   Argv.playwrightArgs := [] |} (le_n _)) as Hundef.
  split; apply not_eq_None_Some; intros Hnone.
  - destruct Hundef as [Hb|[Hm|(front & flag & Hargs & Hflag)]];
      [by left | done | done |].
    rewrite (Hlast _ _ Hargs) in Hflag. discriminate.
  - destruct Hundef as [Hb|[Hm|(front & flag & Hargs & Hflag)]];
      [by right | done | done |].
    rewrite (Hlast _ _ Hargs) in Hflag. discriminate.
Qed.

Lemma X22_settings_stay_defined_witness :
  ∃ parsed,
    Node.result (Argv.parseArgs Sample.changed (λ _, inr Scenario.rc)
                   ["-b"; "develop"; "-v"]) = Node.Ret parsed
    ∧ is_Some (Argv.baseBranch (Argv.config parsed))
    ∧ is_Some (Argv.mappingsFile (Argv.config parsed)).
Proof.
  apply (X22_settings_stay_defined Sample.changed (λ _, inr Scenario.rc)
           ["-b"; "develop"; "-v"]).
  intros front flag Hargs.
  assert (Hlast : last ["-b"; "develop"; "-v"] = Some flag)
    by (rewrite Hargs; apply last_snoc).
  injection Hlast as <-. reflexivity.
Defined.

(** X23: [loadConfig] never throws. Without a [.mapperrc] it returns the
    defaults; with one that cannot be read or parsed it warns and returns
    the defaults; otherwise each key of the file replaces the default and
    each missing key keeps it. *)
Theorem X23_loadConfig_total (W : Node.World)
    (readJSON : string → Node.JsError + Argv.ConfigFile) :
  let configPath := Node.path_resolve W (Node.cwd W) ".mapperrc" in
  let warning := Node.console_warn "[mapper] Error loading .mapperrc, using defaults" in
  ∃ loaded,
    Node.result (Argv.loadConfig W readJSON) = Node.Ret loaded
    ∧ (Node.existsSync W configPath = false →
         loaded = Cli.DEFAULT_CONFIG
         ∧ warning ∉ Node.trace (Argv.loadConfig W readJSON))
    ∧ (∀ e, Node.existsSync W configPath = true → readJSON configPath = inl e →
         loaded = Cli.DEFAULT_CONFIG
         ∧ warning ∈ Node.trace (Argv.loadConfig W readJSON))
    ∧ (∀ file, Node.existsSync W configPath = true → readJSON configPath = inr file →
         Cli.mappingsFile loaded = default "test-mappings.js" (Argv.file_mappingsFile file)
         ∧ Cli.baseBranch loaded = default "main" (Argv.file_baseBranch file)
         ∧ Cli.addBaseline loaded = default true (Argv.file_addBaseline file)
         ∧ Cli.verbose loaded = default false (Argv.file_verbose file)
         ∧ warning ∉ Node.trace (Argv.loadConfig W readJSON)).
Proof.
  intros configPath warning. rewrite loadConfig_run. cbv zeta. fold configPath.
  destruct (Node.existsSync W configPath) eqn:Hpresent.
  - destruct (readJSON configPath) as [e|file] eqn:Hread.
    + exists Cli.DEFAULT_CONFIG. split_and!; [done | done | | done].
      intros _ _ _. split; [done|]. apply list_elem_of_further, list_elem_of_here.
    + exists (Argv.spread Cli.DEFAULT_CONFIG file). split_and!; [done..|].
      intros f _ [= <-]. split_and!; [done..|].
      simpl. intros Hin. apply list_elem_of_singleton in Hin. discriminate.
  - exists Cli.DEFAULT_CONFIG. split_and!; [done | | done | done].
    intros _. split; [done|].
    simpl. intros Hin. apply list_elem_of_singleton in Hin. discriminate.
Qed.

Lemma X23_loadConfig_total_witness :
  Node.result (Argv.loadConfig Scenario.disabled (λ _, inr Scenario.rc))
    = Node.Ret {| Cli.mappingsFile := "test-mappings.js"; Cli.baseBranch := "develop";
                  Cli.addBaseline := true; Cli.verbose := true |}
  ∧ Node.result (Argv.loadConfig Scenario.disabled (λ _, inl (Node.Error "Unexpected end")))
    = Node.Ret Cli.DEFAULT_CONFIG.
Proof.
  destruct (X23_loadConfig_total Scenario.disabled (λ _, inr Scenario.rc))
    as (loaded & Hres & _ & _ & Hfile).
  destruct (X23_loadConfig_total Scenario.disabled
              (λ _, inl (Node.Error "Unexpected end")))
    as (loaded' & Hres' & _ & Hbad & _).
  split.
  - rewrite Hres. f_equal.
    destruct (Hfile Scenario.rc eq_refl eq_refl) as (H1 & H2 & H3 & H4 & _).
    destruct loaded. simpl in *. by subst.
  - rewrite Hres'. f_equal.
    by destruct (Hbad (Node.Error "Unexpected end") eq_refl eq_refl).
Defined.

(* ===================================================================== *)
(** * The command switch and init *)
(* ===================================================================== *)

Section SwitchMore.
Import Node Main.

Lemma initCommand_settled (W : World) (files : Files) :
  is_Some (files !! path_resolve W (cwd W) "test-mappings.js") →
  is_Some (files !! path_resolve W (cwd W) ".mapperrc") →
  initCommand W files =
    ([console_log "⚠️  test-mappings.js already exists, skipping";
      console_log "⚠️  .mapperrc already exists, skipping";
      console_log (Cli.NL +:+ "🎉 Setup complete! Edit test-mappings.js to define your tag→path mappings.")],
     files).
Proof.
  intros Hmappings Hconfig. unfold initCommand.
  rewrite bool_decide_eq_true_2 by done. cbn [negb].
  by rewrite bool_decide_eq_true_2 by done.
Qed.

Lemma initCommand_files (W : World) (files : Files) :
  let mappingsPath := path_resolve W (cwd W) "test-mappings.js" in
  let configPath := path_resolve W (cwd W) ".mapperrc" in
  (initCommand W files).2 =
    let files1 := if files !! mappingsPath is Some _ then files
                  else <[mappingsPath := sampleMappings]> files in
    if files1 !! configPath is Some _ then files1
    else <[configPath := sampleConfig]> files1.
Proof.
  intros mappingsPath configPath. unfold initCommand.
  fold mappingsPath configPath.
  destruct (files !! mappingsPath) as [content|] eqn:Hm.
  - rewrite bool_decide_eq_true_2 by (by eexists). cbn [negb].
    destruct (files !! configPath) as [content'|] eqn:Hc.
    + by rewrite bool_decide_eq_true_2 by (by eexists).
    + by rewrite bool_decide_eq_false_2 by (by intros [? ?]).
  - rewrite bool_decide_eq_false_2 by (by intros [? ?]). cbn [negb].
    destruct (<[mappingsPath:=sampleMappings]> files !! configPath) as [content'|] eqn:Hc.
    + by rewrite bool_decide_eq_true_2 by (by eexists).
    + by rewrite bool_decide_eq_false_2 by (by intros [? ?]).
Qed.

Lemma switch_default (W : World) (init : M unit) (command : string)
    (config : Cli.Config) (playwrightArgs : list string) :
  command ≠ "help" → command ≠ "init" → command ≠ "list" →
  switch W init command config playwrightArgs =
    bind (Cli.runCommand W config playwrightArgs) (λ exitCode, process_exit exitCode).
Proof.
  intros Hhelp Hinit Hlist. unfold switch.
  by rewrite !bool_decide_eq_false_2.
Qed.

End SwitchMore.

(** X24: for every command other than [help], [init] and [list] (so for
    [run], and for any unknown word), the switch runs the tests: the runner
    is called exactly once and the process ends with the runner's status. *)
Theorem X24_switch_runs_and_exits (W : Node.World) (init : Node.M unit)
    (command : string) (config : Cli.Config) (playwrightArgs : list string) :
  command ≠ "help" → command ≠ "init" → command ≠ "list" →
  ∃ pattern code,
    Node.result (Main.switch W init command config playwrightArgs) = Node.Exit code
    ∧ Node.result (Index.runPlaywright W pattern (Some playwrightArgs)) = Node.Ret code
    ∧ View.runner_calls (Node.trace (Main.switch W init command config playwrightArgs))
        = [Index.playwright_command pattern playwrightArgs].
Proof.
  intros Hhelp Hinit Hlist. rewrite switch_default by done.
  destruct (runCommand_total W config playwrightArgs)
    as (pattern & code & Hres & Hrun & Hcalls & _).
  exists pattern, code. rewrite result_bind, trace_bind, Hres. simpl.
  by rewrite app_nil_r.
Qed.

Lemma X24_switch_runs_and_exits_witness :
  ∃ pattern code,
    Node.result (Main.switch Scenario.mapped (Node.ret tt) "deploy"
                   Cli.DEFAULT_CONFIG []) = Node.Exit code
    ∧ Node.result (Index.runPlaywright Scenario.mapped pattern (Some [])) = Node.Ret code
    ∧ View.runner_calls (Node.trace (Main.switch Scenario.mapped (Node.ret tt) "deploy"
                                       Cli.DEFAULT_CONFIG []))
        = [Index.playwright_command pattern []].
Proof.
  apply (X24_switch_runs_and_exits Scenario.mapped (Node.ret tt) "deploy"
           Cli.DEFAULT_CONFIG []); discriminate.
Defined.

(** X25: the [list] command never starts the runner and ends the process
    with status 0 when the listing returned, with status 1 when the listing
    reported a loader error. *)
Theorem X25_switch_list_exits (W : Node.World) (init : Node.M unit)
    (config : Cli.Config) (playwrightArgs : list string) :
  View.runner_calls (Node.trace (Main.switch W init "list" config playwrightArgs)) = []
  ∧ (Node.result (Cli.listCommand W config) = Node.Ret tt
     ∧ Node.result (Main.switch W init "list" config playwrightArgs) = Node.Exit 0%Z
     ∨ Node.result (Cli.listCommand W config) = Node.Exit 1%Z
       ∧ Node.result (Main.switch W init "list" config playwrightArgs) = Node.Exit 1%Z).
Proof.
  assert (Heq : Main.switch W init "list" config playwrightArgs
                = Node.bind (Cli.listCommand W config) (λ _, Node.process_exit 0%Z))
    by done.
  rewrite Heq, result_bind, trace_bind.
  destruct (listCommand_total W config) as (Hcalls & [Hret|Hexit] & _).
  - rewrite Hret. simpl. rewrite app_nil_r. split; [done|]. by left.
  - rewrite Hexit. rewrite app_nil_r. split; [done|]. by right.
Qed.

(** X26: [initCommand] never overwrites a file: every file that existed
    keeps its content, only the two sample paths can change, both exist
    afterwards, and a sample that was missing is created with the sample
    content. *)
Theorem X26_init_keeps_files (W : Node.World) (files : Main.Files) :
  let mappingsPath := Node.path_resolve W (Node.cwd W) "test-mappings.js" in
  let configPath := Node.path_resolve W (Node.cwd W) ".mapperrc" in
  let after := (Main.initCommand W files).2 in
  (∀ path content, files !! path = Some content → after !! path = Some content)
  ∧ (∀ path, path ≠ mappingsPath → path ≠ configPath → after !! path = files !! path)
  ∧ is_Some (after !! mappingsPath)
  ∧ is_Some (after !! configPath)
  ∧ (files !! mappingsPath = None → after !! mappingsPath = Some Main.sampleMappings)
  ∧ (files !! configPath = None → mappingsPath ≠ configPath →
       after !! configPath = Some Main.sampleConfig).
Proof.
  intros mappingsPath configPath after. subst after.
  rewrite initCommand_files. fold mappingsPath configPath. cbv zeta.
  destruct (files !! mappingsPath) as [m|] eqn:Hm.
  - destruct (files !! configPath) as [c|] eqn:Hc.
    + split_and!; try done; try (by eexists); try (by rewrite Hm); try (by rewrite Hc).
    + split_and!.
      * intros path content Hpath. rewrite lookup_insert_ne; [done|].
        intros <-. congruence.
      * intros path _ Hne. by rewrite lookup_insert_ne.
      * rewrite lookup_insert_ne by (intros <-; congruence). by eexists.
      * rewrite lookup_insert_eq. by eexists.
      * done.
      * intros _ _. by rewrite lookup_insert_eq.
  - destruct (<[mappingsPath:=Main.sampleMappings]> files !! configPath) as [c|] eqn:Hc.
    + split_and!.
      * intros path content Hpath. rewrite lookup_insert_ne; [done|].
        intros <-. congruence.
      * intros path Hne _. by rewrite lookup_insert_ne.
      * rewrite lookup_insert_eq. by eexists.
      * rewrite Hc. by eexists.
      * intros _. by rewrite lookup_insert_eq.
      * intros Hnone Hdiff. rewrite lookup_insert_ne in Hc by done. congruence.
    + assert (Hdiff : configPath ≠ mappingsPath).
      { intros Heq. rewrite Heq, lookup_insert_eq in Hc. discriminate. }
      rewrite lookup_insert_ne in Hc by done.
      split_and!.
      * intros path content Hpath. rewrite !lookup_insert_ne; [done|..];
          intros <-; congruence.
      * intros path Hm' Hc'. by rewrite !lookup_insert_ne.
      * rewrite lookup_insert_ne, lookup_insert_eq by done. by eexists.
      * rewrite lookup_insert_eq. by eexists.
      * intros _. by rewrite lookup_insert_ne, lookup_insert_eq.
      * intros _ _. by rewrite lookup_insert_eq.
Qed.

Lemma X26_init_keeps_files_witness :
  (Main.initCommand Sample.changed {[ "/repo/.mapperrc" := "{}" ]}).2
    !! "/repo/.mapperrc" = Some "{}"
  ∧ (Main.initCommand Sample.changed {[ "/repo/.mapperrc" := "{}" ]}).2
      !! "/repo/test-mappings.js" = Some Main.sampleMappings.
Proof.
  destruct (X26_init_keeps_files Sample.changed {[ "/repo/.mapperrc" := "{}" ]})
    as (Hkeep & _ & _ & _ & Hcreate & _).
  split.
  - apply Hkeep. reflexivity.
  - apply Hcreate. reflexivity.
Defined.

(** X27: running [initCommand] a second time changes no file and reports
    both samples as already existing. *)
Theorem X27_init_twice (W : Node.World) (files : Main.Files) :
  Main.initCommand W (Main.initCommand W files).2 =
    ([Node.console_log "⚠️  test-mappings.js already exists, skipping";
      Node.console_log "⚠️  .mapperrc already exists, skipping";
      Node.console_log (Cli.NL +:+ "🎉 Setup complete! Edit test-mappings.js to define your tag→path mappings.")],
     (Main.initCommand W files).2).
Proof.
  apply initCommand_settled.
  - rewrite initCommand_files. cbv zeta.
    destruct (files !! Node.path_resolve W (Node.cwd W) "test-mappings.js") eqn:Hm.
    + destruct (files !! Node.path_resolve W (Node.cwd W) ".mapperrc") eqn:Hc.
      * rewrite Hm. by eexists.
      * destruct (decide (Node.path_resolve W (Node.cwd W) ".mapperrc"
                          = Node.path_resolve W (Node.cwd W) "test-mappings.js"))
          as [Heq|Hne]; [congruence|].
        rewrite lookup_insert_ne, Hm by done. by eexists.
    + destruct (<[_ := Main.sampleMappings]> files !! _) eqn:Hc.
      * rewrite lookup_insert_eq. by eexists.
      * destruct (decide (Node.path_resolve W (Node.cwd W) ".mapperrc"
                          = Node.path_resolve W (Node.cwd W) "test-mappings.js"))
          as [Heq|Hne].
        -- rewrite Heq, lookup_insert_eq in Hc. discriminate.
        -- rewrite lookup_insert_ne, lookup_insert_eq by done. by eexists.
  - rewrite initCommand_files. cbv zeta.
    destruct (files !! Node.path_resolve W (Node.cwd W) "test-mappings.js") eqn:Hm.
    + destruct (files !! Node.path_resolve W (Node.cwd W) ".mapperrc") eqn:Hc.
      * rewrite Hc. by eexists.
      * rewrite lookup_insert_eq. by eexists.
    + destruct (<[_ := Main.sampleMappings]> files !! _) eqn:Hc.
      * rewrite Hc. by eexists.
      * rewrite lookup_insert_eq. by eexists.
Qed.
